(** * xlsx/sheets.go: worksheet decoding and the row cursor

    A shallow embedding of [parseSheet], [placeValue], [Next], [Strings],
    [Scan], [IsEmpty] and [Err] of package [xlsx], and the properties of
    the decoded grid.

    Conventions.
    - Go's [int] and [int64] are 64-bit two's complement integers; they are
      carried by [Z], with the overflow written out where the source adds
      one ([wrap] in [Next], the row length in [emptyRow], the loop counters
      in [forRange]).
    - A run-time panic of the Go code (index out of range, failed type
      assertion, ...) is the [Panic] outcome; nothing in [sheets.go]
      recovers from one, so a panic ends the computation. A counting loop
      that cannot exit because its bound is the largest [int] is reported
      the same way, as [Unbounded].
    - A slice [[]T] is a [list T]; [rows] holds pointers to rows that are
      allocated one by one and never shared, so a list of rows is exact.
    - Memory is finite: [make] and [append] do not return for every
      length. The lengths up to which they do are taken from the run-time
      system as the parameters [maxValues] and [maxRows] of the class
      [Runtime]; the properties hold for every value of the two. *)

From Stdlib Require Import ZArith Lia Bool Ascii PrimFloat.
From stdpp Require Import base option list strings gmap.

Local Open Scope Z_scope.

(** ** Outcomes: normal return or panic *)

Inductive panic : Type :=
  | IndexOutOfRange      (* slice index out of range *)
  | InterfaceConversion  (* failed single-value type assertion *)
  | MakeSliceLen         (* make([]T, n) with n negative or too large *)
  | GrowSliceLen         (* append beyond the length a slice can have *)
  | NilDereference       (* call of a nil function value *)
  | Unbounded.           (* a counting loop whose bound is the largest int:
                            the counter wraps, there is no normal exit *)

Inductive outcome (A : Type) : Type :=
  | Ok (a : A)
  | Panic (p : panic).
Arguments Ok {A} a.
Arguments Panic {A} p.

Definition obind {A B} (k : A -> outcome B) (m : outcome A) : outcome B :=
  match m with
  | Ok a => k a
  | Panic p => Panic p
  end.

#[global] Instance outcome_bind : MBind outcome := @obind.
#[global] Instance outcome_ret : MRet outcome := @Ok.

Definition returns {A} (m : outcome A) : Prop := exists a, m = Ok a.

(** ** Machine integers *)

Definition max_int : Z := 2 ^ 63 - 1.
Definition min_int : Z := - 2 ^ 63.

(** Two's complement wrap-around of a 64-bit [int]. *)
Definition wrap (z : Z) : Z := (z + 2 ^ 63) mod 2 ^ 64 - 2 ^ 63.

(** [l[i]] for a Go [int] index: out of range (negative included) is a
    panic. *)
Definition index {A} (l : list A) (i : Z) : outcome A :=
  if i <? 0 then Panic IndexOutOfRange
  else match l !! Z.to_nat i with
       | Some a => Ok a
       | None => Panic IndexOutOfRange
       end.

(** [len(l)] as an [int]. *)
Definition len {A} (l : list A) : Z := Z.of_nat (length l).

(** ** Cell values (package [commonxl], seen through its interface) *)

Definition float64 : Type := PrimFloat.float.

(** Modelled from the spec: the four merge sentinels ([continueColumnMerged],
    [endColumnMerged], [continueRowMerged], [endRowMerged]) are constants of
    the package declared outside [sheets.go]; section 3 of the design
    describes them as four directional markers that are not text. *)
Inductive staticCellType : Type :=
  | continueColumnMerged
  | endColumnMerged
  | continueRowMerged
  | endRowMerged.

(** The dynamic values an [interface{}] holds in this file. [ANil] is the
    nil interface, the raw value of a zero [commonxl.Value]. [ATime] carries
    a [time.Time] as an instant in nanoseconds. *)
Inductive Any : Type :=
  | ANil
  | ABool (b : bool)
  | AInt (n : Z)
  | AFloat (f : float64)
  | AString (s : string)
  | ATime (t : Z)
  | AStatic (m : staticCellType).

(** Modelled from the spec: [commonxl.Value], [commonxl.NewValue] and the
    method [Raw] are declared outside [sheets.go]; a cell value is a tagged
    value together with its display string, and [Raw] gives the tagged value
    back. *)
Record Value : Type := NewValue { Raw : Any; display : string }.

(** The zero [commonxl.Value], as [make] fills a fresh row with. *)
Definition zeroValue : Value := NewValue ANil "".

(** ** Markup tokens and the document (external collaborators) *)

(** [xml.Attr], by local name. *)
Record Attr : Type := mkAttr { attrName : string; attrValue : string }.

(** [xml.Token] as [RawToken] yields it; element names are local names. *)
Inductive Token : Type :=
  | StartElement (local : string) (attr : list Attr)
  | EndElement (local : string)
  | CharData (v : string)
  | OtherToken.   (* comments, directives, processing instructions *)

Inductive error : Type :=
  | EOF                      (* io.EOF *)
  | errNotLoaded             (* "xlsx: sheet not loaded" *)
  | ErrInvalidScanType       (* grate.ErrInvalidScanType *)
  | ErrOther (msg : string). (* any other error value *)

Definition error_eqb (a b : error) : bool :=
  match a, b with
  | EOF, EOF | errNotLoaded, errNotLoaded
  | ErrInvalidScanType, ErrInvalidScanType => true
  | ErrOther x, ErrOther y => String.eqb x y
  | _, _ => false
  end.

(** A token stream: [RawToken] hands out [pending] one token at a time and
    then fails with [final] (end of stream is [EOF], a read failure is any
    other error). *)
Record Decoder : Type := mkDecoder { pending : list Token; final : error }.

Inductive opened : Type :=
  | Opened (dec : Decoder)
  | OpenFailed (e : error).

(** [commonxl.FmtFunc], with the formatter context already supplied: from
    the number to its display string and its interpreted value. *)
Definition FmtFunc : Type := float64 -> string * Any.

Record Document : Type := mkDocument {
  strings : list string;         (* the shared-string table *)
  xfs     : list FmtFunc;        (* the number-format table *)
  openXML : string -> opened     (* named part of the container *)
}.

(** Modelled from the spec: [getAttrs] is declared outside [sheets.go]; it
    returns, for each requested key, the value of the attribute of that
    local name, and the empty string when the element has none.
    [getAttr attr k] is the entry of [getAttrs(attr, ..., k, ...)] for [k]. *)
Definition getAttr (attr : list Attr) (key : string) : string :=
  fold_left (fun acc a => if String.eqb (attrName a) key then attrValue a
                          else acc) attr "".

(** [strings.Split(s, ":")]: never empty. *)
Fixpoint Split (s : string) : list string :=
  match s with
  | EmptyString => [""]
  | String c r =>
      if Ascii.eqb c ":" then "" :: Split r
      else match Split r with
           | h :: t => String c h :: t
           | [] => [String c ""]
           end
  end.

(** *** [strconv.ParseInt(s, 10, 64)] *)

Definition digitVal (c : ascii) : option Z :=
  let n := Z.of_nat (nat_of_ascii c) in
  if (48 <=? n) && (n <=? 57) then Some (n - 48) else None.

Definition maxUint64 : Z := 2 ^ 64 - 1.

Inductive numError : Type := NoError | ErrSyntax | ErrRange.

(** The digit loop of [ParseUint] in base 10: a byte that is no digit is a
    syntax error with value 0, an overflow a range error with value
    [maxUint64], whichever comes first from the left. *)
Fixpoint parseUintLoop (s : string) (n : Z) : Z * numError :=
  match s with
  | EmptyString => (n, NoError)
  | String c r =>
      match digitVal c with
      | None => (0, ErrSyntax)
      | Some dgt =>
          if n >=? maxUint64 / 10 + 1 then (maxUint64, ErrRange)
          else let n1 := n * 10 + dgt in
               if n1 >? maxUint64 then (maxUint64, ErrRange)
               else parseUintLoop r n1
      end
  end.

Definition ParseUint (s : string) : Z * numError :=
  match s with
  | EmptyString => (0, ErrSyntax)
  | _ => parseUintLoop s 0
  end.

Definition ParseInt (s : string) : Z * numError :=
  match s with
  | EmptyString => (0, ErrSyntax)
  | String c r =>
      let neg := Ascii.eqb c "-" in
      let body := if Ascii.eqb c "+" || neg then r else s in
      match ParseUint body with
      | (_, ErrSyntax) => (0, ErrSyntax)
      | (un, _) =>
          if negb neg && (un >=? 2 ^ 63) then (max_int, ErrRange)
          else if neg && (un >? 2 ^ 63) then (min_int, ErrRange)
          else (if neg then - un else un, NoError)
      end
  end.

(** ** The sheet *)

Record row : Type := mkRow { cols : list Value }.

Record Sheet : Type := mkSheet {
  err     : option error;        (* nil is None *)
  d       : Document;
  relID   : string;
  name    : string;
  docname : string;
  rows    : list row;
  minRow  : Z;
  maxRow  : Z;
  minCol  : Z;
  maxCol  : Z;
  iterRow : Z;
  empty   : bool
}.

Definition set_rows (s : Sheet) (rs : list row) (e : bool) : Sheet :=
  mkSheet (err s) (d s) (relID s) (name s) (docname s) rs (minRow s)
          (maxRow s) (minCol s) (maxCol s) (iterRow s) e.

Definition set_bounds (s : Sheet) (c0 r0 c1 r1 : Z) (e : bool) : Sheet :=
  mkSheet (err s) (d s) (relID s) (name s) (docname s) (rows s) r0 r1 c0 c1
          (iterRow s) e.

Definition set_iterRow (s : Sheet) (i : Z) : Sheet :=
  mkSheet (err s) (d s) (relID s) (name s) (docname s) (rows s) (minRow s)
          (maxRow s) (minCol s) (maxCol s) i (empty s).

(** ** [placeValue] *)

(** What the model takes from the run-time system of Go. [make] does not
    return for every length: [make([]commonxl.Value, n)] panics (makeslice:
    len out of range) when [n] is negative or when [n] times the size of a
    value exceeds what the allocator hands out, and [append] cannot grow
    [s.rows] without end either. [maxValues] is the largest length of a row
    of values [make] returns, [maxRows] the largest length [append] grows
    the slice of rows to. Both depend on the platform and on
    [commonxl.Value], which is declared outside [sheets.go]; every property
    below holds whatever they are. *)
Class Runtime : Type := mkRuntime {
  maxValues : Z;
  maxRows   : Z
}.

(** [make([]commonxl.Value, s.maxCol+1)]: the sum overflows to the least
    [int] at the largest one; a negative length and a length beyond
    [maxValues] are a panic. *)
Definition emptyRow {RT : Runtime} (s : Sheet) : outcome row :=
  let n := if maxCol s =? max_int then min_int else maxCol s + 1 in
  if (n <? 0) || (n >? maxValues) then Panic MakeSliceLen
  else Ok (mkRow (replicate (Z.to_nat n) zeroValue)).

(** [for len(s.rows) <= rowIndex { s.rows = append(s.rows, &row{...}) }]:
    one fresh row per iteration, until row [rowIndex] exists. The first
    iteration makes a row, and panics when [make] does; the loop cannot
    reach [rowIndex + 1] rows when that is more than [maxRows] or than the
    largest [int], and ends in the panic of [append] then. *)
Definition growRows {RT : Runtime} (s : Sheet) (rowIndex : Z)
  : outcome (list row) :=
  if len (rows s) <=? rowIndex then
    r ← emptyRow s;
    if rowIndex + 1 >? Z.min maxRows max_int
    then Panic GrowSliceLen
    else Ok (rows s
             ++ replicate (Z.to_nat (rowIndex + 1) - length (rows s))%nat r)
  else Ok (rows s).

(** [s.rows[rowIndex].cols[colIndex] = v], both indexes checked. *)
Definition storeCell (rs : list row) (rowIndex colIndex : Z) (v : Value)
  : outcome (list row) :=
  r ← index rs rowIndex;
  _ ← index (cols r) colIndex;
  Ok (<[Z.to_nat rowIndex := mkRow (<[Z.to_nat colIndex := v]> (cols r))]> rs).

Definition placeValue {RT : Runtime} (s : Sheet) (rowIndex colIndex : Z)
    (val : Any) (str : string) : outcome Sheet :=
  if (colIndex >? maxCol s) || (rowIndex >? maxRow s) then
    Ok s  (* invalid *)
  else
    rs ← growRows s rowIndex;
    rs' ← storeCell rs rowIndex colIndex (NewValue val str);
    Ok (set_rows s rs' false).

(** ** The decode loop of [parseSheet] *)

(** Modelled from the spec: the [CellType] constants are declared outside
    [sheets.go]; they are the values of the [t] attribute of a cell, the
    blank type being the absent attribute. *)
Definition CellType : Type := string.
Definition BlankCellType : CellType := "".
Definition BooleanCellType : CellType := "b".
Definition DateCellType : CellType := "d".
Definition ErrorCellType : CellType := "e".
Definition NumberCellType : CellType := "n".
Definition SharedStringCellType : CellType := "s".
Definition FormulaStringCellType : CellType := "str".
Definition InlineStringCellType : CellType := "inlineStr".

Definition hyperlinkType : string :=
  "http://schemas.openxmlformats.org/officeDocument/2006/relationships/hyperlink".

(** The local variables of the loop. *)
Record loopState : Type := mkLoop {
  currentCellType : CellType;
  currentCell     : string;
  numFormat       : option FmtFunc   (* None is the nil function *)
}.

Definition initLoop : loopState := mkLoop BlankCellType "" None.

(** [n] turns of a counting loop from [i] on. *)
Fixpoint forCount {St} (n : nat) (i : Z) (body : Z -> St -> outcome St)
    (s : St) : outcome St :=
  match n with
  | O => Ok s
  | S n' => s' ← body i s; forCount n' (i + 1) body s'
  end.

(** [for i := lo; i <= hi; i++ { body }] over an [int]. When [hi] is the
    largest [int] the counter wraps and the loop cannot exit normally; the
    model runs the iterations up to [hi] and then reports [Unbounded]. *)
Definition forRange {St} (lo hi : Z) (body : Z -> St -> outcome St)
    (s : St) : outcome St :=
  if hi <? lo then Ok s
  else
    s' ← forCount (Z.to_nat (hi - lo + 1)) lo body s;
    if hi =? max_int then Panic Unbounded else Ok s'.

Section Decode.

(** The address codec [refToIndexes] is declared outside [sheets.go]:
    from a cell reference to its (column, row). [ParseFloat] is
    [strconv.ParseFloat(_, 64)] with [None] for [err != nil], and
    [relsName] the path arithmetic that turns the name of the worksheet
    part into the name of its relationships part. *)
Variable refToIndexes : string -> Z * Z.
Variable ParseFloat : string -> option float64.
Variable relsName : string -> string.
Context {RT : Runtime}.

(** The relationships loop: external hyperlink targets by identifier. *)
Definition relStep (linkmap : gmap string string) (tok : Token)
  : gmap string string :=
  match tok with
  | StartElement local attr =>
      if String.eqb local "Relationship"
         && String.eqb (getAttr attr "TargetMode") "External"
         && String.eqb (getAttr attr "Type") hyperlinkType
      then <[getAttr attr "Id" := getAttr attr "Target"]> linkmap
      else linkmap
  | _ => linkmap
  end.

Definition loadRels (dec : Decoder) : gmap string string :=
  fold_left relStep (pending dec) ∅.

(** [case xml.CharData]. *)
Definition onCharData (st : loopState) (s : Sheet) (v : string)
  : outcome Sheet :=
  if String.eqb (currentCell st) "" then Ok s
  else
    let '(c, r) := refToIndexes (currentCell st) in
    if (c >=? 0) && (r >=? 0) then
      let t := currentCellType st in
      if String.eqb t BooleanCellType then
        match v with
        | EmptyString => Panic IndexOutOfRange         (* v[0] *)
        | String b _ => placeValue s r c (ABool (Ascii.eqb b "1")) v
        end
      else if String.eqb t DateCellType then
        placeValue s r c (AString v) v
      else if String.eqb t NumberCellType then
        match ParseFloat v with
        | Some fval =>
            match numFormat st with
            | Some fmt => let '(str, val) := fmt fval in
                          placeValue s r c val str
            | None => Panic NilDereference
            end
        | None => placeValue s r c (AString v) v
        end
      else if String.eqb t SharedStringCellType then
        str ← index (strings (d s)) (fst (ParseInt v));
        placeValue s r c (AString str) str
      else if String.eqb t BlankCellType then
        Ok s   (* don't place any values *)
      else
        placeValue s r c (AString v) v
    else Ok s.

(** [case "dimension"]. *)
Definition onDimension (s : Sheet) (attr : list Attr) : Sheet :=
  let ref := getAttr attr "ref" in
  if String.eqb ref "A1" then
    set_bounds s 0 0 1 1 true   (* short-circuit empty sheet *)
  else
    let dims := Split ref in
    if (length dims =? 1)%nat then
      let '(c1, r1) := refToIndexes (hd "" dims) in
      set_bounds s 0 0 c1 r1 (empty s)
    else
      let '(c0, r0) := refToIndexes (hd "" dims) in
      let '(c1, r1) := refToIndexes (nth 1 dims "") in
      set_bounds s c0 r0 c1 r1 (empty s).

(** [case "c"]. *)
Definition onCell (s : Sheet) (attr : list Attr) : outcome loopState :=
  let t := getAttr attr "t" in
  let t := if String.eqb t BlankCellType then NumberCellType else t in
  let sid := fst (ParseInt (getAttr attr "s")) in
  fmt ← (if len (xfs (d s)) >? sid then index (xfs (d s)) sid
         else index (xfs (d s)) 0);
  Ok (mkLoop t (getAttr attr "r") (Some fmt)).

(** The body of the two loops of [case "mergeCell"] at row [r], column
    [c]. *)
Definition mergeAt (startCol startRow endCol endRow r c : Z) (s : Sheet)
  : outcome Sheet :=
  if (r =? startRow) && (c =? startCol) then
    Ok s   (* has data already! *)
  else if c =? startCol then
    if r =? endRow then placeValue s r c (AStatic endRowMerged) ""
    else placeValue s r c (AStatic continueRowMerged) ""
  else if c =? endCol then
    placeValue s r c (AStatic endColumnMerged) ""
  else
    placeValue s r c (AStatic continueColumnMerged) "".

Definition mergeRange (startCol startRow endCol endRow : Z) (s : Sheet)
  : outcome Sheet :=
  forRange startRow endRow (fun r =>
    forRange startCol endCol (fun c =>
      mergeAt startCol startRow endCol endRow r c)) s.

(** The region of a [mergeCell] element: start column and row, end
    column and row. *)
Definition mergeEnds (attr : list Attr) : Z * Z * Z * Z :=
  let dims := Split (getAttr attr "ref") in
  let '(startCol, startRow) := refToIndexes (hd "" dims) in
  let '(endCol, endRow) :=
    if (1 <? length dims)%nat then refToIndexes (nth 1 dims "")
    else (startCol, startRow) in
  (startCol, startRow, endCol, endRow).

(** [case "mergeCell"]. *)
Definition onMergeCell (s : Sheet) (attr : list Attr) : outcome Sheet :=
  let '(startCol, startRow, endCol, endRow) := mergeEnds attr in
  mergeRange startCol startRow endCol endRow s.

(** The display string [case "hyperlink"] composes for the cell at
    ([row], [col]). *)
Definition composeLink (s : Sheet) (row col : Z) (link : string)
  : outcome string :=
  if len (rows s) >? row then
    rw ← index (rows s) row;
    if len (cols rw) >? col then
      v ← index (cols rw) col;
      match Raw v with
      | AString sstr => Ok (sstr +:+ " <" +:+ link +:+ ">")
      | _ => Ok link
      end
    else Ok link
  else Ok link.

(** [case "hyperlink"]. *)
Definition onHyperlink (linkmap : gmap string string) (s : Sheet)
    (attr : list Attr) : outcome Sheet :=
  let '(col, row) := refToIndexes (getAttr attr "ref") in
  let link := default "" (linkmap !! getAttr attr "id") in
  link' ← composeLink s row col link;
  placeValue s row col (AString link') link'.

(** One turn of the token loop. *)
Definition step (linkmap : gmap string string) (ls : loopState * Sheet)
    (tok : Token) : outcome (loopState * Sheet) :=
  let '(st, s) := ls in
  match tok with
  | CharData v => s' ← onCharData st s v; Ok (st, s')
  | StartElement local attr =>
      if String.eqb local "dimension" then Ok (st, onDimension s attr)
      else if String.eqb local "row" then Ok (st, s)
      else if String.eqb local "c" then st' ← onCell s attr; Ok (st', s)
      else if String.eqb local "v" then Ok (st, s)
      else if String.eqb local "mergeCell" then
        s' ← onMergeCell s attr; Ok (st, s')
      else if String.eqb local "hyperlink" then
        s' ← onHyperlink linkmap s attr; Ok (st, s')
      else Ok (st, s)   (* containers, formulas, unhandled tags *)
  | EndElement local =>
      if String.eqb local "c"
      then Ok (mkLoop (currentCellType st) "" (numFormat st), s)
      else Ok (st, s)
  | OtherToken => Ok (st, s)
  end.

(** [for ; err == nil; tok, err = dec.RawToken()] over the tokens the
    stream hands out before it fails. *)
Fixpoint decode (linkmap : gmap string string) (toks : list Token)
    (ls : loopState * Sheet) : outcome (loopState * Sheet) :=
  match toks with
  | [] => Ok ls
  | tok :: toks' => ls' ← step linkmap ls tok; decode linkmap toks' ls'
  end.

(** The first part of [parseSheet]: the link map of the sheet, empty when
    the relationships part does not open. *)
Definition loadLinks (s : Sheet) : gmap string string :=
  match openXML (d s) (relsName (docname s)) with
  | Opened dec => loadRels dec   (* rels might not exist for every sheet *)
  | OpenFailed _ => ∅
  end.

(** [parseSheet]: the sheet as the call leaves it, and the error it
    returns. *)
Definition parseSheet (s : Sheet) : outcome (Sheet * option error) :=
  let linkmap := loadLinks s in
  match openXML (d s) (docname s) with
  | OpenFailed e => Ok (s, Some e)
  | Opened dec =>
      '(_, s') ← decode linkmap (pending dec) (initLoop, s);
      Ok (s', if error_eqb (final dec) EOF then None else Some (final dec))
  end.

End Decode.

(** ** The row cursor *)

(** [Next]: the sheet with the cursor advanced, and the result. *)
Definition Next (s : Sheet) : Sheet * bool :=
  let s' := set_iterRow s (wrap (iterRow s + 1)) in
  (s', iterRow s' <? len (rows s')).

(** Modelled from the spec: [IsEmpty] and the string form of a
    [commonxl.Value] are declared outside [sheets.go]; an empty cell is the
    zero value, and a cell prints as its display string. *)
Definition valueIsEmpty (v : Value) : bool :=
  match Raw v with
  | ANil => true
  | _ => false
  end.

Definition Sprint (v : Value) : string := display v.

Definition Strings (s : Sheet) : outcome (list string) :=
  currow ← index (rows s) (iterRow s);
  Ok (map (fun col => if valueIsEmpty col then "" else Sprint col)
          (cols currow)).

(** The destinations [Scan] tells apart by their dynamic type. *)
Inductive Dest : Type :=
  | PBool | PInt | PFloat64 | PString | PTime   (* *bool ... *time.Time *)
  | PInterface                                  (* *interface{} *)
  | POther.                                     (* anything else *)

(** One turn of the type switch of [Scan] on the raw value of the cell:
    the value stored through the pointer, or [None] in the default case.
    [raw.(T)] panics when [raw] does not hold a [T]. *)
Definition scanInto (a : Dest) (raw : Any) : outcome (option Any) :=
  match a, raw with
  | PBool, ABool _ => Ok (Some raw)
  | PInt, AInt _ => Ok (Some raw)
  | PFloat64, AFloat _ => Ok (Some raw)
  | PString, AString _ => Ok (Some raw)
  | PTime, ATime _ => Ok (Some raw)
  | PInterface, _ => Ok (Some raw)
  | POther, _ => Ok None
  | _, _ => Panic InterfaceConversion
  end.

(** [for i, a := range args]: the values stored so far, in order, and the
    error returned. *)
Fixpoint scanArgs (cs : list Value) (i : nat) (args : list Dest)
  : outcome (list Any * option error) :=
  match args with
  | [] => Ok ([], None)
  | a :: args' =>
      col ← index cs (Z.of_nat i);
      st ← scanInto a (Raw col);
      match st with
      | None => Ok ([], Some ErrInvalidScanType)
      | Some x =>
          '(xs, e) ← scanArgs cs (S i) args';
          Ok (x :: xs, e)
      end
  end.

Definition Scan (s : Sheet) (args : list Dest)
  : outcome (list Any * option error) :=
  currow ← index (rows s) (iterRow s);
  scanArgs (cols currow) 0 args.

Definition IsEmpty (s : Sheet) : bool := empty s.

Definition Err (s : Sheet) : option error := err s.

(** ** The address codec, from the design *)

Module Codec.

Definition isUpper (c : ascii) : bool :=
  let n := Z.of_nat (nat_of_ascii c) in (65 <=? n) && (n <=? 90).

(** The digits of a row number, all of them decimal, at least one. *)
Fixpoint rowDigits (s : string) (acc : Z) : option Z :=
  match s with
  | EmptyString => Some acc
  | String c r =>
      match digitVal c with
      | Some dgt => rowDigits r (acc * 10 + dgt)
      | None => None
      end
  end.

(** The leading capital letters in base 26 with A = 1, then the rest. *)
Fixpoint colLetters (s : string) (acc : Z) : Z * string :=
  match s with
  | String c r =>
      if isUpper c
      then colLetters r (acc * 26 + (Z.of_nat (nat_of_ascii c) - 64))
      else (acc, s)
  | EmptyString => (acc, s)
  end.

(** Modelled from the spec: [refToIndexes] is declared outside
    [sheets.go]. Section 4.1 of the design: one or more capital letters
    then one or more digits give the zero-based column (base 26, A first)
    and the zero-based row (the number minus one); anything else gives
    (-1, -1). *)
Definition refToIndexes (ref : string) : Z * Z :=
  let '(col, rest) := colLetters ref 0 in
  match rest with
  | EmptyString => (-1, -1)
  | _ =>
      match rowDigits rest 0 with
      | Some n => if col =? 0 then (-1, -1) else (col - 1, n - 1)
      | None => (-1, -1)
      end
  end.

End Codec.

(** ** Reading the grid *)

(** The cell at row [r], column [c], when the grid has one. *)
Definition cellAt (s : Sheet) (r c : Z) : option Value :=
  if (r <? 0) || (c <? 0) then None
  else rw ← rows s !! Z.to_nat r; cols rw !! Z.to_nat c.

(** The same with the zero value where the grid has no cell. *)
Definition look (s : Sheet) (r c : Z) : Value :=
  default zeroValue (cellAt s r c).

(** Every row has [maxCol + 1] columns. *)
Definition rect (s : Sheet) : Prop :=
  Forall (fun rw => len (cols rw) = maxCol s + 1) (rows s).

(** A rectangular grid whose declared bounds are below the largest [int]
    and leave room for a row of [maxCol + 1] values and for [maxRow + 1]
    rows. *)
Definition wf {RT : Runtime} (s : Sheet) : Prop :=
  rect s /\ maxCol s < Z.min max_int maxValues /\
  maxRow s < Z.min max_int maxRows.

Definition sameBounds (s s' : Sheet) : Prop :=
  minRow s' = minRow s /\ maxRow s' = maxRow s /\
  minCol s' = minCol s /\ maxCol s' = maxCol s.

(** Rows are only appended and keep their length. *)
Definition grows (rs rs' : list row) : Prop :=
  (length rs <= length rs')%nat /\
  forall i rw, rs !! i = Some rw ->
    exists rw', rs' !! i = Some rw' /\ length (cols rw') = length (cols rw).




(** ** Tokens by what they can do *)

Definition isStart (name : string) (tok : Token) : bool :=
  match tok with
  | StartElement local _ => String.eqb local name
  | _ => false
  end.

Definition isDimension (tok : Token) : bool := isStart "dimension" tok.

(** Neither a cell, a merge region nor a hyperlink: with no cell open,
    such a token places nothing. *)
Definition cellFree (tok : Token) : bool :=
  negb (isStart "c" tok || isStart "mergeCell" tok || isStart "hyperlink" tok).

(** ** The cells a token addresses *)


(** ** Sample documents *)

Module Sample.

Definition sheetPart : string := "xl/worksheets/sheet1.xml".
Definition relsPart : string := "xl/worksheets/_rels/sheet1.xml.rels".

Definition relsName (_ : string) : string := relsPart.

(** No number in the samples: every cell is text. *)
Definition ParseFloat (_ : string) : option float64 := None.

Definition general : FmtFunc := fun f => ("", AFloat f).

(** A container with one worksheet part and its relationships part. *)
Definition document (sheet rels : Decoder) : Document :=
  mkDocument ["first"; "second"] [general]
    (fun name => if String.eqb name sheetPart then Opened sheet
                 else if String.eqb name relsPart then Opened rels
                 else OpenFailed (ErrOther "no such part")).

(** A sheet that was not loaded yet. *)
Definition sheetOf (sheet rels : Decoder) : Sheet :=
  mkSheet (Some errNotLoaded) (document sheet rels) "rId1" "Sheet1" sheetPart
          [] 0 0 0 0 0 false.

Definition noRels : Decoder := mkDecoder [] EOF.

Definition elem (name : string) (attr : list (string * string)) : Token :=
  StartElement name (map (fun kv => mkAttr kv.1 kv.2) attr).

(** An inline-string cell [<c r=ref t="inlineStr"><v>text</v></c>]. *)
Definition textCell (ref text : string) : list Token :=
  [elem "c" [("r", ref); ("t", "inlineStr")]; elem "v" [];
   CharData text; EndElement "v"; EndElement "c"].

(** A run-time system with room for the samples: rows of up to 1024
    values, grids of up to 1024 rows. *)
Definition runtime : Runtime := mkRuntime 1024 1024.

Definition parse (sheet rels : Decoder) : outcome (Sheet * option error) :=
  parseSheet (RT := runtime) Codec.refToIndexes ParseFloat relsName
    (sheetOf sheet rels).

End Sample.

(** ** The merge loops, cell by cell *)




Module SampleGrid.

(** Three columns by three rows are declared and B2 holds the text "v". *)
Definition gridB2 : Sheet :=
  mkSheet None (Sample.document Sample.noRels Sample.noRels) "rId1" "Sheet1"
    Sample.sheetPart
    [mkRow [zeroValue; zeroValue; zeroValue];
     mkRow [zeroValue; NewValue (AString "v") "v"; zeroValue]]
    0 2 0 2 0 false.




(** A cell read before the dimension, and a merge region within the
    bounds declared after it. *)
Definition shortRowMerge : Decoder :=
  mkDecoder (Sample.textCell "A1" "x"
             ++ [Sample.elem "dimension" [("ref", "A1:C3")];
                 Sample.elem "mergeCell" [("ref", "A1:C1")]]) EOF.

End SampleGrid.


(** ** What a turn of the loop keeps *)

(** From [s] to [s']: same bounds and document, rows only appended and of
    unchanged length, and a rectangular grid stays rectangular. *)
Definition keeps (s s' : Sheet) : Prop :=
  sameBounds s s' /\ d s' = d s /\ (rect s -> rect s') /\
  grows (rows s) (rows s').

Module SampleWidth.

(** A worksheet whose dimension starts at column B. *)
Definition offsetSheet : Decoder :=
  mkDecoder ([Sample.elem "dimension" [("ref", "B2:C3")]]
             ++ Sample.textCell "B2" "x") EOF.

(** A worksheet whose dimension comes after its only cell. *)
Definition trailingDimension : Decoder :=
  mkDecoder (Sample.textCell "A1" "x"
             ++ [Sample.elem "dimension" [("ref", "A1:C3")]]) EOF.

(** A worksheet whose dimension comes after the first cell. *)
Definition lateDimension : Decoder :=
  mkDecoder (Sample.textCell "A1" "x"
             ++ [Sample.elem "dimension" [("ref", "A1:C3")]]
             ++ Sample.textCell "C1" "y") EOF.

(** An indented worksheet: blank text between the elements, and a cell
    beyond the bounds read before the dimension A1:C3 and its two cells. *)
Definition indented : Decoder :=
  mkDecoder ([OtherToken; CharData " "; Sample.elem "worksheet" [];
              CharData " "; Sample.elem "c" [("r", "H8")];
              CharData "9"; EndElement "c";
              Sample.elem "dimension" [("ref", "A1:C3")]]
             ++ [CharData " "] ++ Sample.textCell "A1" "x"
             ++ [CharData " "] ++ Sample.textCell "B2" "y") EOF.

End SampleWidth.


Module SampleEmpty.




End SampleEmpty.

Module SampleLink.

(** A1 holds the text "Example", B1 is empty. *)
Definition gridExample : Sheet :=
  mkSheet None (Sample.document Sample.noRels Sample.noRels) "rId1" "Sheet1"
    Sample.sheetPart
    [mkRow [NewValue (AString "Example") "Example"; zeroValue]]
    0 1 0 1 0 false.

Definition links : gmap string string := {["rId1" := "http://x"]}.

Definition linkA1 : list Attr := [mkAttr "ref" "A1"; mkAttr "id" "rId1"].
Definition linkB1 : list Attr := [mkAttr "ref" "B1"; mkAttr "id" "rId1"].

Definition linkC3 : list Attr := [mkAttr "ref" "C3"; mkAttr "id" "rId1"].

(** The relationships part: one external hyperlink, one internal target. *)
Definition rels : Decoder :=
  mkDecoder
    [Sample.elem "Relationships" [];
     Sample.elem "Relationship"
       [("Id", "rId1"); ("Type", hyperlinkType); ("Target", "http://x");
        ("TargetMode", "External")];
     Sample.elem "Relationship"
       [("Id", "rId2"); ("Type", hyperlinkType); ("Target", "#Sheet2!A1")];
     EndElement "Relationships"] EOF.

(** A1 holds "Example"; A1 and B1 link to rId1, C1 to an unknown id. *)
Definition linkedSheet : Decoder :=
  mkDecoder ([Sample.elem "dimension" [("ref", "A1:C1")]]
             ++ Sample.textCell "A1" "Example"
             ++ [Sample.elem "hyperlink" [("ref", "A1"); ("id", "rId1")];
                 Sample.elem "hyperlink" [("ref", "B1"); ("id", "rId1")];
                 Sample.elem "hyperlink" [("ref", "C1"); ("id", "rId9")]]) EOF.

(** A hyperlink whose reference is no cell reference. *)
Definition linkBad : list Attr := [mkAttr "ref" "#REF!"; mkAttr "id" "rId1"].

Definition badHyperlink : Decoder :=
  mkDecoder ([Sample.elem "dimension" [("ref", "A1:C3")]]
             ++ Sample.textCell "A1" "x"
             ++ [Sample.elem "hyperlink" [("ref", "#REF!"); ("id", "rId1")]])
            EOF.

Definition badMerge : Decoder :=
  mkDecoder ([Sample.elem "dimension" [("ref", "A1:C3")]]
             ++ Sample.textCell "A1" "x"
             ++ [Sample.elem "mergeCell" [("ref", "#REF!:C3")]]) EOF.

End SampleLink.


(** ** Destinations and the values they can hold *)

(** The pointers to one of the five supported types. *)
Definition typed (a : Dest) : bool :=
  match a with
  | PBool | PInt | PFloat64 | PString | PTime => true
  | PInterface | POther => false
  end.

(** The raw value has the type the destination points to (any type, for a
    pointer to [interface{}]). *)
Definition holds (a : Dest) (raw : Any) : bool :=
  match a, raw with
  | PBool, ABool _ | PInt, AInt _ | PFloat64, AFloat _
  | PString, AString _ | PTime, ATime _ => true
  | PInterface, _ => true
  | _, _ => false
  end.

Module SampleScan.

(** One row: the text "x" and the boolean true; the cursor is on it. *)
Definition oneRow : Sheet :=
  mkSheet None (Sample.document Sample.noRels Sample.noRels) "rId1" "Sheet1"
    Sample.sheetPart
    [mkRow [NewValue (AString "x") "x"; NewValue (ABool true) "1"]]
    0 0 0 1 0 false.

(** A shared-string cell at A1 being read. *)
Definition sharedA1 : loopState :=
  mkLoop SharedStringCellType "A1" (Some Sample.general).

(** An indented shared-string cell at A1 with the index 1: blank text
    before and after its value element. *)
Definition indentedShared : Decoder :=
  mkDecoder [Sample.elem "dimension" [("ref", "A1:B2")];
             Sample.elem "c" [("r", "A1"); ("t", "s")]; CharData " ";
             Sample.elem "v" []; CharData "1"; EndElement "v"; CharData " ";
             EndElement "c"] EOF.

(** A shared-string cell whose index is the length of the table. *)
Definition sharedBeyond : Decoder :=
  mkDecoder [Sample.elem "dimension" [("ref", "A1:B2")];
             Sample.elem "c" [("r", "A1"); ("t", "s")];
             Sample.elem "v" []; CharData "2"; EndElement "v";
             EndElement "c"] EOF.

(** A worksheet whose stream fails after the first of two rows. *)
Definition broken : Decoder :=
  mkDecoder ([Sample.elem "dimension" [("ref", "A1:B2")]]
             ++ Sample.textCell "A1" "kept") (ErrOther "unexpected EOF in zip").

End SampleScan.


(** ** Relationships, tokens and cursors by what the code does with them *)

(** The target a token of the relationships part records for [id]: it is a
    [Relationship] element, external, of the hyperlink type, with that
    identifier. *)
Definition relTarget (id : string) (tok : Token) : option string :=
  match tok with
  | StartElement local attr =>
      if String.eqb local "Relationship"
         && String.eqb (getAttr attr "TargetMode") "External"
         && String.eqb (getAttr attr "Type") hyperlinkType
         && String.eqb (getAttr attr "Id") id
      then Some (getAttr attr "Target")
      else None
  | _ => None
  end.

(** The tokens every case of the loop passes over: other tokens, end tags
    other than that of a cell, and start tags the switch does not act on. *)
Definition ignorable (tok : Token) : bool :=
  match tok with
  | OtherToken => true
  | EndElement local => negb (String.eqb local "c")
  | StartElement local _ =>
      negb (String.eqb local "dimension" || String.eqb local "c"
            || String.eqb local "mergeCell" || String.eqb local "hyperlink")
  | CharData _ => false
  end.

(** A [dimension] element whose [ref] is exactly "A1". *)
Definition isDimensionA1 (tok : Token) : bool :=
  match tok with
  | StartElement local attr =>
      String.eqb local "dimension" && String.eqb (getAttr attr "ref") "A1"
  | _ => false
  end.

(** Either no cell is open, or the open cell has a type and a format. *)
Definition loopReady (st : loopState) : Prop :=
  currentCell st = "" \/
  (currentCellType st <> BlankCellType /\ numFormat st <> None).

(** The grid has no row beyond the declared last row. *)
Definition rowBound (s : Sheet) : Prop :=
  len (rows s) <= Z.max 0 (maxRow s + 1).

(** What [parseSheet] never writes. *)
Definition sameMeta (s s' : Sheet) : Prop :=
  err s' = err s /\ d s' = d s /\ relID s' = relID s /\ name s' = name s /\
  docname s' = docname s /\ iterRow s' = iterRow s.

(** [n] calls of [Next] in a row: the sheet after them. *)
Fixpoint nextTimes (n : nat) (s : Sheet) : Sheet :=
  match n with
  | O => s
  | S n' => (Next (nextTimes n' s)).1
  end.

(** The rows with fresh empty rows added up to [n] rows in all. *)
Definition padRows (s : Sheet) (n : nat) : list row :=
  rows s ++ replicate (n - length (rows s))
              (mkRow (replicate (Z.to_nat (maxCol s + 1)) zeroValue)).

Module SampleMore.

(** A dimension whose reference is no cell reference, then two cells, a
    merge region and a hyperlink. *)
Definition badDimension : list Token :=
  [Sample.elem "dimension" [("ref", "#REF!")]]
  ++ Sample.textCell "A1" "x" ++ Sample.textCell "B2" "y"
  ++ [Sample.elem "mergeCell" [("ref", "A1:B2")];
      Sample.elem "hyperlink" [("ref", "A1"); ("id", "rId1")]].

(** Two rows of two columns, the cursor before the first row. *)
Definition twoRows : Sheet :=
  mkSheet (Some errNotLoaded) (Sample.document Sample.noRels Sample.noRels)
    "rId1" "Sheet1" Sample.sheetPart
    [mkRow [NewValue (AString "a") "a"; NewValue (ABool true) "1"];
     mkRow [zeroValue; NewValue (AString "b") "b"]]
    0 1 0 1 (-1) false.

(** A worksheet with comments and unknown elements around one cell. *)
Definition noisy : list Token :=
  [OtherToken; Sample.elem "worksheet" [];
   Sample.elem "dimension" [("ref", "A1:B2")]; Sample.elem "sheetViews" [];
   EndElement "sheetViews"; Sample.elem "sheetData" [];
   Sample.elem "row" [("r", "1")]]
  ++ Sample.textCell "B1" "x"
  ++ [EndElement "row"; EndElement "sheetData"; OtherToken;
      EndElement "worksheet"].

End SampleMore.


(** The outcome is not the panic of a call through a nil function. *)
Definition noNil {A} (m : outcome A) : Prop := m <> Panic NilDereference.


(** A row with one column replaced. *)
Definition setCol (j : nat) (v : Value) (rw : row) : row :=
  mkRow (<[j := v]> (cols rw)).

(** The conditions under which the append loop of [placeValue] returns
    when row [r] is missing: [make] returns an empty row, and the rows up to
    row [r] fit. *)
Definition canGrow {RT : Runtime} (s : Sheet) (r : Z) : Prop :=
  (0 <= maxCol s + 1 <= maxValues /\ maxCol s <> max_int) /\
  r + 1 <= Z.min maxRows max_int.

(** The conditions under which a placement inside the bounds returns: the
    indexes are not negative, an empty row can be made and the rows can be
    appended if the target row is missing, and the target row, once the grid
    is padded, has the target column. *)
Definition canPlace {RT : Runtime} (s : Sheet) (r c : Z) : Prop :=
  0 <= r <= maxRow s /\ 0 <= c <= maxCol s /\
  (len (rows s) <= r -> canGrow s r) /\
  exists rw, padRows s (Z.to_nat r + 1) !! Z.to_nat r = Some rw /\
             (Z.to_nat c < length (cols rw))%nat.

(** The sheet such a placement returns. *)
Definition placed (s : Sheet) (r c : Z) (v : Value) : Sheet :=
  set_rows s
    (alter (setCol (Z.to_nat c) v) (Z.to_nat r) (padRows s (Z.to_nat r + 1)))
    false.


(** The four declared bounds. *)
Definition boundsOf (s : Sheet) : Z * Z * Z * Z :=
  (minCol s, minRow s, maxCol s, maxRow s).


(** ** Streams that decode without a panic *)

(** What a check of the stream knows of the loop before a token: whether
    the grid is still as it was before the decode, the reference of the
    open cell and its type. *)
Record cursor : Type := mkCursor {
  untouched : bool;
  openCell  : string;
  openType  : CellType
}.

Definition touch (k : cursor) : cursor :=
  mkCursor false (openCell k) (openType k).

Section Safe.

Variable refToIndexes : string -> Z * Z.
Context {RT : Runtime}.

(** Neither index of the reference is negative. *)
Definition soundRef (ref : string) : bool :=
  let '(c, r) := refToIndexes ref in (0 <=? c) && (0 <=? r).

(** A merge region whose two loops, where they run, start at an index that
    is not negative and end below the largest [int]. *)
Definition safeRegion (attr : list Attr) : bool :=
  let '(sc, sr, ec, er) := mergeEnds refToIndexes attr in
  (er <? sr)
  || ((0 <=? sr) && (er <? max_int)
      && ((ec <? sc) || ((0 <=? sc) && (ec <? max_int)))).

(** The check of one token of the worksheet part of sheet [s0]: [None]
    when the token may make the loop panic, the cursor after it otherwise.
    A dimension must come before anything is placed and declare bounds
    below the largest [int] that leave room for a row and for the rows; a
    boolean cell must have text; the index of a shared string and the style
    of a cell must be in range; the loops of a merge region must run over
    indexes that are not negative and end below the largest [int]; a
    hyperlink must have a reference with no negative index. *)
Definition safeStep (s0 : Sheet) (k : cursor) (tok : Token) : option cursor :=
  match tok with
  | CharData v =>
      if String.eqb (openCell k) "" || negb (soundRef (openCell k)) then Some k
      else if String.eqb (openType k) BooleanCellType then
        if String.eqb v "" then None else Some (touch k)
      else if String.eqb (openType k) SharedStringCellType then
        let si := fst (ParseInt v) in
        if (0 <=? si) && (si <? len (strings (d s0))) then Some (touch k)
        else None
      else Some (touch k)
  | StartElement local attr =>
      if String.eqb local "dimension" then
        let s1 := onDimension refToIndexes s0 attr in
        if untouched k && (maxCol s1 <? Z.min max_int maxValues)
           && (maxRow s1 <? Z.min max_int maxRows)
        then Some k else None
      else if String.eqb local "c" then
        let t := getAttr attr "t" in
        if (0 <=? fst (ParseInt (getAttr attr "s"))) && (0 <? len (xfs (d s0)))
        then Some (mkCursor (untouched k) (getAttr attr "r")
                     (if String.eqb t BlankCellType then NumberCellType else t))
        else None
      else if String.eqb local "mergeCell" then
        if safeRegion attr then Some (touch k) else None
      else if String.eqb local "hyperlink" then
        if soundRef (getAttr attr "ref") then Some (touch k) else None
      else Some k
  | EndElement local =>
      if String.eqb local "c"
      then Some (mkCursor (untouched k) "" (openType k)) else Some k
  | OtherToken => Some k
  end.

Fixpoint safeStream (s0 : Sheet) (k : cursor) (toks : list Token) : bool :=
  match toks with
  | [] => true
  | tok :: toks' =>
      match safeStep s0 k tok with
      | Some k' => safeStream s0 k' toks'
      | None => false
      end
  end.

(** What the cursor says of a state of the loop over sheet [s0]. *)
Definition tracks (s0 : Sheet) (k : cursor) (ls : loopState * Sheet) : Prop :=
  wf ls.2 /\ d ls.2 = d s0 /\
  (untouched k = true -> rows ls.2 = []) /\
  currentCell ls.1 = openCell k /\ currentCellType ls.1 = openType k /\
  (openCell k <> "" -> numFormat ls.1 <> None).

End Safe.

Module SampleSafe.

(** A worksheet with a prolog, its dimension, two cells of which one is a
    shared string and one lies beyond the bounds, a merge region that
    overhangs the bounds and a hyperlink. *)
Definition worksheet : list Token :=
  [OtherToken; Sample.elem "worksheet" [];
   Sample.elem "dimension" [("ref", "A1:B2")]; Sample.elem "sheetData" [];
   Sample.elem "row" [("r", "1")];
   Sample.elem "c" [("r", "A1"); ("t", "s"); ("s", "7")]; Sample.elem "v" [];
   CharData "1"; EndElement "v"; EndElement "c"]
  ++ Sample.textCell "D9" "far"
  ++ [EndElement "row"; EndElement "sheetData";
      Sample.elem "mergeCell" [("ref", "A2:C2")];
      Sample.elem "hyperlink" [("ref", "A1"); ("id", "rId1")];
      EndElement "worksheet"].

End SampleSafe.

(** * Properties *)

(** The closed examples run on the sample run-time system. *)
#[local] Existing Instance Sample.runtime.

Module CodecExamples.
Import Codec.
Example refToIndexes_A1 : refToIndexes "A1" = (0, 0).
Proof. reflexivity. Qed.
Example refToIndexes_B1 : refToIndexes "B1" = (1, 0).
Proof. reflexivity. Qed.
Example refToIndexes_A2 : refToIndexes "A2" = (0, 1).
Proof. reflexivity. Qed.
Example refToIndexes_AA1 : refToIndexes "AA1" = (26, 0).
Proof. reflexivity. Qed.
Example refToIndexes_bad : refToIndexes "a1" = (-1, -1).
Proof. reflexivity. Qed.

End CodecExamples.

(** ** Outcomes *)

Lemma bind_Ok {A B} (m : outcome A) (k : A -> outcome B) (b : B) :
  m ≫= k = Ok b -> exists a, m = Ok a /\ k a = Ok b.
Proof. destruct m as [a|p]; cbn; [eauto | discriminate]. Qed.

Lemma bind_Ok_l {A B} (m : outcome A) (k : A -> outcome B) (a : A) :
  m = Ok a -> m ≫= k = k a.
Proof. intros ->. reflexivity. Qed.

Ltac inv_bind H :=
  let a := fresh "a" in
  let Ha := fresh "Ha" in
  apply bind_Ok in H; destruct H as (a & Ha & H).

Tactic Notation "inv_bind_as" hyp(H) "as" simple_intropattern(a) ident(Ha) :=
  apply bind_Ok in H; destruct H as (a & Ha & H).

Lemma index_Ok {A} (l : list A) (i : Z) (a : A) :
  index l i = Ok a <-> 0 <= i /\ l !! Z.to_nat i = Some a.
Proof.
  unfold index. destruct (Z.ltb_spec i 0).
  - split; [discriminate | lia].
  - destruct (l !! Z.to_nat i) eqn:E; split.
    + intros [= ->]. auto.
    + intros [_ [= ->]]. reflexivity.
    + discriminate.
    + intros [_ [=]].
Qed.

Lemma index_in_range {A} (l : list A) (i : Z) :
  0 <= i < len l -> exists a, index l i = Ok a /\ l !! Z.to_nat i = Some a.
Proof.
  intros Hi. unfold len in Hi.
  destruct (lookup_lt_is_Some_2 l (Z.to_nat i)) as [a Ha]; [lia |].
  exists a. split; [| assumption]. apply index_Ok. split; [lia | assumption].
Qed.

Lemma index_out_of_range {A} (l : list A) (i : Z) :
  i < 0 \/ len l <= i -> index l i = Panic IndexOutOfRange.
Proof.
  intros Hi. unfold index, len in *. destruct (Z.ltb_spec i 0); [reflexivity |].
  rewrite lookup_ge_None_2; [reflexivity | lia].
Qed.


(** ** [placeValue] *)

Lemma grows_refl rs : grows rs rs.
Proof. split; [lia | eauto]. Qed.

Lemma grows_trans rs1 rs2 rs3 : grows rs1 rs2 -> grows rs2 rs3 -> grows rs1 rs3.
Proof.
  intros [L1 H1] [L2 H2]. split; [lia |].
  intros i rw Hi. destruct (H1 i rw Hi) as (rw' & Hi' & E').
  destruct (H2 i rw' Hi') as (rw'' & Hi'' & E''). exists rw''. split; [done | congruence].
Qed.

Lemma emptyRow_Ok {RT : Runtime} s rw :
  emptyRow s = Ok rw ->
  rw = mkRow (replicate (Z.to_nat (maxCol s + 1)) zeroValue) /\
  0 <= maxCol s + 1 /\ maxCol s <> max_int.
Proof.
  unfold emptyRow. destruct (Z.eqb_spec (maxCol s) max_int) as [E|E].
  - cbn. discriminate.
  - destruct (Z.ltb_spec (maxCol s + 1) 0); [discriminate |].
    destruct (Z.gtb_spec (maxCol s + 1) maxValues); [discriminate |].
    intros [= <-]. auto.
Qed.

(** [make] returns exactly for a length from 0 to [maxValues]. *)
Lemma emptyRow_returns {RT : Runtime} s :
  returns (emptyRow s) <->
  0 <= maxCol s + 1 <= maxValues /\ maxCol s <> max_int.
Proof.
  unfold emptyRow. destruct (Z.eqb_spec (maxCol s) max_int) as [E|E].
  - cbn. split; [intros [rw Hrw]; discriminate Hrw | lia].
  - destruct (Z.ltb_spec (maxCol s + 1) 0);
      destruct (Z.gtb_spec (maxCol s + 1) maxValues); cbn;
      (split; [intros [rw Hrw]; try discriminate Hrw; lia
              | intros Hok; try lia; eexists; reflexivity]).
Qed.

Lemma emptyRow_wf {RT : Runtime} s :
  -1 <= maxCol s < Z.min max_int maxValues ->
  emptyRow s = Ok (mkRow (replicate (Z.to_nat (maxCol s + 1)) zeroValue)).
Proof.
  intros Hm. unfold emptyRow.
  destruct (Z.eqb_spec (maxCol s) max_int); [lia |].
  destruct (Z.ltb_spec (maxCol s + 1) 0); [lia |].
  destruct (Z.gtb_spec (maxCol s + 1) maxValues); [lia | reflexivity].
Qed.

(** What [growRows] returns: the rows, followed by fresh empty rows up to
    row [rowIndex]. *)
Lemma growRows_Ok {RT : Runtime} s rowIndex rs :
  growRows s rowIndex = Ok rs ->
  exists k, rs = rows s ++
              replicate k (mkRow (replicate (Z.to_nat (maxCol s + 1)) zeroValue))
            /\ (k = 0%nat \/ 0 <= maxCol s + 1)
            /\ (k = Z.to_nat (rowIndex + 1) - length (rows s))%nat.
Proof.
  unfold growRows. destruct (Z.leb_spec (len (rows s)) rowIndex) as [H|H].
  - intros Hb. inv_bind Hb. apply emptyRow_Ok in Ha as (-> & H0 & _).
    destruct (rowIndex + 1 >? Z.min maxRows max_int); [discriminate Hb |].
    injection Hb as <-. eexists. split; [reflexivity |]. split; [right; lia | reflexivity].
  - intros [= <-]. exists 0%nat. cbn. rewrite app_nil_r.
    split; [reflexivity |]. split; [left; reflexivity |]. unfold len in H. lia.
Qed.

Lemma storeCell_Ok rs r c v rs' :
  storeCell rs r c v = Ok rs' ->
  exists rw, 0 <= r /\ 0 <= c /\ rs !! Z.to_nat r = Some rw /\
    (Z.to_nat c < length (cols rw))%nat /\
    rs' = <[Z.to_nat r := mkRow (<[Z.to_nat c := v]> (cols rw))]> rs.
Proof.
  unfold storeCell. intros H. inv_bind H. inv_bind H.
  apply index_Ok in Ha as [Hr Ha]. apply index_Ok in Ha0 as [Hc Ha0].
  injection H as <-. exists a. repeat split; try assumption.
  apply lookup_lt_Some in Ha0. exact Ha0.
Qed.

(** What a call of [placeValue] that returns has done: nothing, or one
    store into the grown grid. *)
Lemma placeValue_Ok {RT : Runtime} s r c val str s' :
  placeValue s r c val str = Ok s' ->
  s' = s \/
  exists rs rw,
    growRows s r = Ok rs /\ 0 <= r <= maxRow s /\ 0 <= c <= maxCol s /\
    rs !! Z.to_nat r = Some rw /\ (Z.to_nat c < length (cols rw))%nat /\
    s' = set_rows s
           (<[Z.to_nat r := mkRow (<[Z.to_nat c := NewValue val str]> (cols rw))]> rs)
           false.
Proof.
  unfold placeValue.
  destruct (Z.gtb_spec c (maxCol s)) as [Hc|Hc]; cbn [orb].
  { intros [= <-]. left. reflexivity. }
  destruct (Z.gtb_spec r (maxRow s)) as [Hr|Hr].
  { intros [= <-]. left. reflexivity. }
  intros H. inv_bind H. inv_bind H. injection H as <-.
  apply storeCell_Ok in Ha0 as (rw & H0r & H0c & Hrw & Hlt & ->).
  right. exists a, rw. repeat split; try assumption; lia.
Qed.

Lemma placeValue_sameBounds {RT : Runtime} s r c val str s' :
  placeValue s r c val str = Ok s' -> sameBounds s s' /\ d s' = d s.
Proof.
  intros H. apply placeValue_Ok in H as [-> | (rs & rw & _ & _ & _ & _ & _ & ->)];
    repeat split; reflexivity.
Qed.

Lemma placeValue_rect {RT : Runtime} s r c val str s' :
  rect s -> placeValue s r c val str = Ok s' -> rect s'.
Proof.
  intros Hrect H.
  apply placeValue_Ok in H as [-> | (rs & rw & Hg & _ & _ & Hrw & Hlt & ->)];
    [assumption |].
  apply growRows_Ok in Hg as (k & -> & Hk & _).
  assert (Hall : Forall (fun rw => len (cols rw) = maxCol s + 1)
                   (rows s ++ replicate k
                      (mkRow (replicate (Z.to_nat (maxCol s + 1)) zeroValue)))).
  { apply Forall_app. split; [exact Hrect |].
    destruct Hk as [-> | Hk]; [constructor |].
    apply Forall_replicate. cbn. unfold len. rewrite length_replicate. lia. }
  unfold rect. cbn. apply Forall_insert; [exact Hall |].
  cbn. unfold len. rewrite length_insert.
  rewrite Forall_lookup in Hall. apply (Hall _ _ Hrw).
Qed.

Lemma placeValue_grows {RT : Runtime} s r c val str s' :
  placeValue s r c val str = Ok s' -> grows (rows s) (rows s').
Proof.
  intros H.
  apply placeValue_Ok in H as [-> | (rs & rw & Hg & _ & _ & Hrw & Hlt & ->)];
    [apply grows_refl |].
  apply growRows_Ok in Hg as (k & -> & _ & _). cbn. split.
  - rewrite length_insert, length_app. lia.
  - intros i rw0 Hi.
    destruct (decide (i = Z.to_nat r)) as [-> | Hne].
    + rewrite list_lookup_insert_eq by (eapply lookup_lt_Some; eassumption).
      eexists. split; [reflexivity |]. cbn. rewrite length_insert.
      rewrite (lookup_app_l_Some _ _ _ _ Hi) in Hrw. congruence.
    + rewrite list_lookup_insert_ne by congruence.
      exists rw0. split; [| reflexivity]. apply lookup_app_l_Some. exact Hi.
Qed.

Lemma cellAt_nonneg s r c v : cellAt s r c = Some v -> 0 <= r /\ 0 <= c.
Proof.
  unfold cellAt. destruct (Z.ltb_spec r 0); [discriminate |].
  destruct (Z.ltb_spec c 0); [discriminate | lia].
Qed.

Lemma cellAt_lookup s r c :
  0 <= r -> 0 <= c ->
  cellAt s r c = rw ← rows s !! Z.to_nat r; cols rw !! Z.to_nat c.
Proof.
  intros Hr Hc. unfold cellAt.
  destruct (Z.ltb_spec r 0); [lia |]. destruct (Z.ltb_spec c 0); [lia | reflexivity].
Qed.

Lemma look_negative s r c : r < 0 \/ c < 0 -> look s r c = zeroValue.
Proof.
  intros H. unfold look, cellAt.
  destruct (Z.ltb_spec r 0); [reflexivity |].
  destruct (Z.ltb_spec c 0); [reflexivity | lia].
Qed.

(** Fresh empty rows after the grid do not change what [look] reads. *)
Lemma look_fresh_rows (rs : list row) (k n i j : nat) :
  default zeroValue
    (rw ← (rs ++ replicate k (mkRow (replicate n zeroValue))) !! i; cols rw !! j)
  = default zeroValue (rw ← rs !! i; cols rw !! j).
Proof.
  destruct (decide (i < length rs)%nat) as [Hi|Hi].
  - rewrite lookup_app_l by exact Hi. reflexivity.
  - rewrite lookup_app_r by lia. rewrite (lookup_ge_None_2 rs i) by lia.
    destruct (replicate k _ !! _) as [rw|] eqn:E; [| reflexivity].
    apply lookup_replicate in E as [-> _]. cbn.
    destruct (replicate n zeroValue !! j) as [v|] eqn:E'; [| reflexivity].
    apply lookup_replicate in E' as [-> _]. reflexivity.
Qed.

(** What a call of [placeValue] that returns has changed: inside the
    bounds the cell holds the new value and the sheet is no longer empty,
    beyond them the sheet is as it was, and in both cases [look] reads every
    other cell as before and no cell is lost. *)
Lemma placeValue_effect {RT : Runtime} s r c val str s' :
  placeValue s r c val str = Ok s' ->
  (r <= maxRow s -> c <= maxCol s ->
   cellAt s' r c = Some (NewValue val str) /\ empty s' = false) /\
  (r > maxRow s \/ c > maxCol s -> s' = s) /\
  (forall i j, (i, j) <> (r, c) -> look s' i j = look s i j) /\
  (forall i j v, (i, j) <> (r, c) -> cellAt s i j = Some v ->
                 cellAt s' i j = Some v).
Proof.
  unfold placeValue.
  destruct (Z.gtb_spec c (maxCol s)) as [Hc|Hc]; cbn [orb].
  { intros [= <-]. repeat split; auto; lia. }
  destruct (Z.gtb_spec r (maxRow s)) as [Hr|Hr].
  { intros [= <-]. repeat split; auto; lia. }
  intros H. inv_bind_as H as rs Hgrow. inv_bind_as H as rs' Hstore.
  injection H as <-.
  apply growRows_Ok in Hgrow as (k & -> & _ & _).
  apply storeCell_Ok in Hstore as (rw & H0r & H0c & Hrw & Hclt & ->).
  set (n := Z.to_nat (maxCol s + 1)) in *.
  set (rs := rows s ++ replicate k (mkRow (replicate n zeroValue))) in *.
  assert (Hlen : (Z.to_nat r < length rs)%nat) by (eapply lookup_lt_Some; eassumption).
  set (t := set_rows s _ false).
  assert (Hcell : forall i j, 0 <= i -> 0 <= j ->
            cellAt t i j =
            if decide (Z.to_nat i = Z.to_nat r) then
              (<[Z.to_nat c := NewValue val str]> (cols rw)) !! Z.to_nat j
            else rw' ← rs !! Z.to_nat i; cols rw' !! Z.to_nat j).
  { intros i j Hi Hj. rewrite cellAt_lookup by assumption. cbn.
    destruct (decide (Z.to_nat i = Z.to_nat r)) as [-> | Hne].
    - rewrite list_lookup_insert_eq by exact Hlen. reflexivity.
    - rewrite list_lookup_insert_ne by congruence. reflexivity. }
  split; [| split; [| split]].
  - intros _ _. split; [| reflexivity].
    rewrite Hcell by lia. rewrite decide_True by reflexivity.
    apply list_lookup_insert_eq. exact Hclt.
  - lia.
  - intros i j Hne.
    destruct (Z.ltb_spec i 0) as [Hi|Hi]; [rewrite !look_negative by lia; reflexivity |].
    destruct (Z.ltb_spec j 0) as [Hj|Hj]; [rewrite !look_negative by lia; reflexivity |].
    unfold look. rewrite Hcell by assumption. rewrite (cellAt_lookup s) by assumption.
    rewrite <- (look_fresh_rows (rows s) k n). fold rs.
    destruct (decide (Z.to_nat i = Z.to_nat r)) as [Heq | Hnr]; [| reflexivity].
    rewrite Heq, Hrw. cbn.
    rewrite list_lookup_insert_ne; [reflexivity |].
    intros Hjc. apply Hne. f_equal; lia.
  - intros i j v Hne Hv.
    destruct (cellAt_nonneg _ _ _ _ Hv) as [Hi Hj].
    rewrite Hcell by assumption. rewrite cellAt_lookup in Hv by assumption.
    destruct (rows s !! Z.to_nat i) as [rwi|] eqn:Ei; [| discriminate].
    cbn in Hv.
    assert (Ers : rs !! Z.to_nat i = Some rwi) by (apply lookup_app_l_Some; exact Ei).
    destruct (decide (Z.to_nat i = Z.to_nat r)) as [Heq | Hnr].
    + rewrite Heq in Ers. assert (rwi = rw) by congruence. subst rwi.
      rewrite list_lookup_insert_ne; [exact Hv |].
      intros Hjc. apply Hne. f_equal; lia.
    + rewrite Ers. exact Hv.
Qed.

(** An in-bounds [placeValue] on a well-formed sheet returns. *)
Lemma placeValue_returns {RT : Runtime} s r c val str :
  wf s -> 0 <= r <= maxRow s -> 0 <= c <= maxCol s ->
  returns (placeValue s r c val str).
Proof.
  intros (Hrect & HmaxC & HmaxR) Hr Hc.
  set (E := mkRow (replicate (Z.to_nat (maxCol s + 1)) zeroValue)).
  set (k := (Z.to_nat (r + 1) - length (rows s))%nat).
  set (rs := rows s ++ replicate k E).
  assert (Hgrow : growRows s r = Ok rs).
  { unfold growRows. destruct (Z.leb_spec (len (rows s)) r) as [H|H].
    - rewrite emptyRow_wf by lia. cbn.
      destruct (Z.gtb_spec (r + 1) (Z.min maxRows max_int)); [lia | reflexivity].
    - cbn. f_equal. subst rs k. unfold len in H.
      replace (Z.to_nat (r + 1) - length (rows s))%nat with 0%nat by lia.
      cbn. rewrite app_nil_r. reflexivity. }
  assert (Hall : Forall (fun rw => len (cols rw) = maxCol s + 1) rs).
  { apply Forall_app. split; [exact Hrect |]. apply Forall_replicate.
    cbn. unfold len. rewrite length_replicate. lia. }
  assert (Hlen : (Z.to_nat r < length rs)%nat).
  { subst rs k. rewrite length_app, length_replicate. lia. }
  destruct (lookup_lt_is_Some_2 rs _ Hlen) as [rw Hrw].
  assert (Hcols : len (cols rw) = maxCol s + 1).
  { rewrite Forall_lookup in Hall. exact (Hall _ _ Hrw). }
  assert (Hclt : (Z.to_nat c < length (cols rw))%nat) by (unfold len in Hcols; lia).
  destruct (lookup_lt_is_Some_2 (cols rw) _ Hclt) as [v0 Hv0].
  eexists. unfold placeValue.
  destruct (Z.gtb_spec c (maxCol s)); [lia |].
  destruct (Z.gtb_spec r (maxRow s)); [lia |]. cbn [orb].
  rewrite Hgrow. cbn. unfold storeCell.
  rewrite (bind_Ok_l (index rs r) _ rw) by (apply index_Ok; split; [lia | done]).
  rewrite (bind_Ok_l (index (cols rw) c) _ v0) by (apply index_Ok; split; [lia | done]).
  reflexivity.
Qed.

(** An in-bounds [placeValue] on a well-formed sheet: it returns, the cell
    holds the new value, and [look] reads every other cell as before. *)
Lemma placeValue_in {RT : Runtime} s r c val str :
  wf s -> 0 <= r <= maxRow s -> 0 <= c <= maxCol s ->
  exists s',
    placeValue s r c val str = Ok s' /\ wf s' /\ sameBounds s s' /\
    d s' = d s /\ empty s' = false /\
    cellAt s' r c = Some (NewValue val str) /\
    (forall i j, (i, j) <> (r, c) -> look s' i j = look s i j) /\
    (forall i j v, (i, j) <> (r, c) -> cellAt s i j = Some v ->
                   cellAt s' i j = Some v).
Proof.
  intros Hwf Hr Hc.
  destruct (placeValue_returns s r c val str Hwf Hr Hc) as [s' Hp].
  exists s'. split; [exact Hp |].
  destruct (placeValue_sameBounds _ _ _ _ _ _ Hp) as [Hb Hd].
  destruct (placeValue_effect _ _ _ _ _ _ Hp) as (Hin & _ & Hlook & Hkeep).
  destruct Hin as [Hcell Hempty]; [lia | lia |].
  destruct Hwf as (Hrect & HmC & HmR). destruct Hb as (B1 & B2 & B3 & B4).
  split.
  { split; [eapply placeValue_rect; eassumption | lia]. }
  repeat split; assumption.
Qed.

Lemma placeValue_not_empty {RT : Runtime} s r c val str s' :
  placeValue s r c val str = Ok s' -> empty s = false -> empty s' = false.
Proof.
  intros H He. apply placeValue_Ok in H as [-> | (rs & rw & _ & _ & _ & _ & _ & ->)];
    [exact He | reflexivity].
Qed.

Lemma placeValue_invalid {RT : Runtime} s r c val str :
  r > maxRow s \/ c > maxCol s -> placeValue s r c val str = Ok s.
Proof.
  intros H. unfold placeValue.
  destruct (Z.gtb_spec c (maxCol s)); [reflexivity |].
  destruct (Z.gtb_spec r (maxRow s)); [reflexivity | lia].
Qed.

(** A placement with no negative index on a well-formed sheet returns a
    well-formed sheet. *)
Lemma placeValue_total {RT : Runtime} s r c val str :
  wf s -> 0 <= r -> 0 <= c ->
  exists s', placeValue s r c val str = Ok s' /\ wf s' /\ d s' = d s.
Proof.
  intros Hwf Hr Hc.
  destruct (Z_le_gt_dec r (maxRow s)) as [Hr' | Hr'];
    [destruct (Z_le_gt_dec c (maxCol s)) as [Hc' | Hc'] |].
  - destruct (placeValue_in s r c val str Hwf) as (s' & Hp & Hwf' & _ & Hd & _);
      [lia | lia |]. exists s'. auto.
  - exists s. rewrite placeValue_invalid by (right; lia). auto.
  - exists s. rewrite placeValue_invalid by (left; lia). auto.
Qed.

(** ** Counting loops *)

Lemma forCount_inv {St} (P : Z -> St -> Prop) (body : Z -> St -> outcome St)
    (n : nat) (lo : Z) (s : St) :
  P lo s ->
  (forall i t, lo <= i < lo + Z.of_nat n -> P i t ->
     exists t', body i t = Ok t' /\ P (i + 1) t') ->
  exists s', forCount n lo body s = Ok s' /\ P (lo + Z.of_nat n) s'.
Proof.
  revert lo s. induction n as [|n IH]; intros lo s H0 Hstep.
  - exists s. split; [reflexivity |]. replace (lo + Z.of_nat 0) with lo by lia. exact H0.
  - destruct (Hstep lo s) as (t & Ht & HP); [lia | exact H0 |].
    destruct (IH (lo + 1) t HP) as (s' & Hs' & HP').
    { intros i u Hi. apply Hstep. lia. }
    exists s'. split.
    + cbn [forCount]. rewrite (bind_Ok_l _ _ _ Ht). exact Hs'.
    + replace (lo + Z.of_nat (S n)) with (lo + 1 + Z.of_nat n) by lia. exact HP'.
Qed.

Lemma forRange_inv {St} (P : Z -> St -> Prop) (body : Z -> St -> outcome St)
    (lo hi : Z) (s : St) :
  lo <= hi -> hi < max_int ->
  P lo s ->
  (forall i t, lo <= i <= hi -> P i t ->
     exists t', body i t = Ok t' /\ P (i + 1) t') ->
  exists s', forRange lo hi body s = Ok s' /\ P (hi + 1) s'.
Proof.
  intros Hle Hmax H0 Hstep. unfold forRange.
  destruct (Z.ltb_spec hi lo); [lia |].
  destruct (forCount_inv P body (Z.to_nat (hi - lo + 1)) lo s H0) as (s' & Hs' & HP).
  { intros i t Hi. apply Hstep. lia. }
  exists s'. rewrite (bind_Ok_l _ _ _ Hs').
  destruct (Z.eqb_spec hi max_int); [lia |].
  split; [reflexivity |]. replace (hi + 1) with (lo + Z.of_nat (Z.to_nat (hi - lo + 1))) by lia.
  exact HP.
Qed.



Lemma forCount_preserve {St} (Q : St -> St -> Prop) (body : Z -> St -> outcome St) :
  (forall s, Q s s) ->
  (forall s1 s2 s3, Q s1 s2 -> Q s2 s3 -> Q s1 s3) ->
  (forall i s s', body i s = Ok s' -> Q s s') ->
  forall n lo s s', forCount n lo body s = Ok s' -> Q s s'.
Proof.
  intros Hrefl Htrans Hbody. induction n as [|n IH]; intros lo s s' H.
  - injection H as <-. apply Hrefl.
  - cbn [forCount] in H. inv_bind H. eapply Htrans; [eapply Hbody | eapply IH]; eassumption.
Qed.

Lemma forRange_preserve {St} (Q : St -> St -> Prop) (body : Z -> St -> outcome St) :
  (forall s, Q s s) ->
  (forall s1 s2 s3, Q s1 s2 -> Q s2 s3 -> Q s1 s3) ->
  (forall i s s', body i s = Ok s' -> Q s s') ->
  forall lo hi s s', forRange lo hi body s = Ok s' -> Q s s'.
Proof.
  intros Hrefl Htrans Hbody lo hi s s'. unfold forRange.
  destruct (hi <? lo).
  - intros [= <-]. apply Hrefl.
  - intros H. inv_bind H. destruct (hi =? max_int); [discriminate |].
    injection H as <-. eapply forCount_preserve; eassumption.
Qed.

(** An empty range, and the range of one index that is not the largest. *)
Lemma forRange_empty {St} (body : Z -> St -> outcome St) lo hi s :
  hi < lo -> forRange lo hi body s = Ok s.
Proof. intros H. unfold forRange. destruct (Z.ltb_spec hi lo); [reflexivity | lia]. Qed.




(** ** Merge regions *)









(** The two loops return on a well-formed sheet when they run over indexes
    that are not negative and end below the largest [int]. *)
Lemma mergeRange_total {RT : Runtime} sc sr ec er s :
  wf s ->
  er < sr \/ (0 <= sr /\ er < max_int /\ (ec < sc \/ (0 <= sc /\ ec < max_int))) ->
  exists s', mergeRange sc sr ec er s = Ok s' /\ wf s' /\ d s' = d s.
Proof.
  intros Hwf [Hempty | (Hsr & Her & Hcols)].
  - exists s. unfold mergeRange. rewrite forRange_empty by lia. auto.
  - destruct (Z_lt_le_dec er sr) as [Hlt | Hle].
    { exists s. unfold mergeRange. rewrite forRange_empty by lia. auto. }
    unfold mergeRange.
    destruct (forRange_inv (fun _ t => wf t /\ d t = d s)
                (fun r => forRange sc ec (fun c => mergeAt sc sr ec er r c))
                sr er s Hle Her (conj Hwf eq_refl)) as (s' & Hs' & Hwf' & Hd').
    { intros r t Hr [Hwt Hdt].
      destruct (Z_lt_le_dec ec sc) as [Hclt | Hcle].
      { exists t. rewrite forRange_empty by lia. auto. }
      destruct Hcols as [Hcols | [Hsc Hec]]; [lia |].
      destruct (forRange_inv (fun _ u => wf u /\ d u = d s)
                  (fun c => mergeAt sc sr ec er r c)
                  sc ec t Hcle Hec (conj Hwt Hdt)) as (t' & Ht' & Hwt' & Hdt').
      { intros c u Hc [Hwu Hdu]. unfold mergeAt.
        repeat case_match;
          try (exists u; split; [reflexivity | auto]);
          (edestruct (placeValue_total u r c) as (u' & Hu' & Hwu' & Hdu');
           [exact Hwu | lia | lia |];
           exists u'; split; [exact Hu' | split; [exact Hwu' | congruence]]). }
      exists t'. auto. }
    exists s'. auto.
Qed.




(** On a grid with a row shorter than [maxCol + 1], which a [dimension]
    element read after a cell leaves behind, a merge region within the
    declared bounds indexes the row beyond its end. *)
Lemma mergeCell_short_row_panics :
  Sample.parse SampleGrid.shortRowMerge Sample.noRels = Panic IndexOutOfRange.
Proof. vm_compute. reflexivity. Qed.

(** ** Out-of-bounds placement *)

(** C3. A call of [placeValue] with [rowIndex > maxRow] or
    [colIndex > maxCol] returns the sheet as it was: the same rows with the
    same contents and the same emptiness flag. *)
Theorem placeValue_out_of_bounds {RT : Runtime} (s : Sheet) (rowIndex colIndex : Z)
    (val : Any) (str : string) :
  rowIndex > maxRow s \/ colIndex > maxCol s ->
  placeValue s rowIndex colIndex val str = Ok s.
Proof.
  intros H. unfold placeValue.
  destruct (Z.gtb_spec colIndex (maxCol s)); [reflexivity |].
  destruct (Z.gtb_spec rowIndex (maxRow s)); [reflexivity | lia].
Qed.

Lemma placeValue_out_of_bounds_witness :
  placeValue SampleGrid.gridB2 7 1 (AString "stray") "stray"
  = Ok SampleGrid.gridB2.
Proof. apply placeValue_out_of_bounds. left. cbn. lia. Defined.

(** ** The grid stays rectangular *)

Lemma keeps_refl s : keeps s s.
Proof. split; [repeat split |]. split; [reflexivity |]. split; [auto | apply grows_refl]. Qed.

Lemma keeps_trans s1 s2 s3 : keeps s1 s2 -> keeps s2 s3 -> keeps s1 s3.
Proof.
  intros ((A1 & A2 & A3 & A4) & D1 & R1 & G1) ((B1 & B2 & B3 & B4) & D2 & R2 & G2).
  split; [repeat split; congruence |]. split; [congruence |].
  split; [auto | eapply grows_trans; eassumption].
Qed.

Lemma placeValue_keeps {RT : Runtime} s r c val str s' :
  placeValue s r c val str = Ok s' -> keeps s s'.
Proof.
  intros H. destruct (placeValue_sameBounds _ _ _ _ _ _ H) as [Hb Hd].
  split; [exact Hb |]. split; [exact Hd |]. split.
  - intros Hrect. eapply placeValue_rect; eassumption.
  - eapply placeValue_grows; eassumption.
Qed.

Lemma mergeAt_keeps {RT : Runtime} sc sr ec er r c s s' :
  mergeAt sc sr ec er r c s = Ok s' -> keeps s s'.
Proof.
  unfold mergeAt. intros H.
  repeat case_match; try (injection H as <-; apply keeps_refl);
    eapply placeValue_keeps; eassumption.
Qed.

Lemma mergeRange_keeps {RT : Runtime} sc sr ec er s s' :
  mergeRange sc sr ec er s = Ok s' -> keeps s s'.
Proof.
  unfold mergeRange.
  apply forRange_preserve; [apply keeps_refl | apply keeps_trans |].
  intros r t t'.
  apply forRange_preserve; [apply keeps_refl | apply keeps_trans |].
  intros c u u'. apply mergeAt_keeps.
Qed.

Section Keeps.

Context {RT : Runtime}.

Variable refToIndexes : string -> Z * Z.
Variable ParseFloat : string -> option float64.
Variable relsName : string -> string.

Lemma onMergeCell_keeps s attr s' :
  onMergeCell refToIndexes s attr = Ok s' -> keeps s s'.
Proof.
  unfold onMergeCell. destruct (mergeEnds refToIndexes attr) as [[[sc sr] ec] er].
  apply mergeRange_keeps.
Qed.

Lemma onHyperlink_keeps lm s attr s' :
  onHyperlink refToIndexes lm s attr = Ok s' -> keeps s s'.
Proof.
  unfold onHyperlink. destruct (refToIndexes _) as [col row].
  intros H. inv_bind H. eapply placeValue_keeps; eassumption.
Qed.

Lemma onCharData_keeps st s v s' :
  onCharData refToIndexes ParseFloat st s v = Ok s' -> keeps s s'.
Proof.
  unfold onCharData. intros H.
  repeat case_match; try discriminate;
    try (injection H as <-; apply keeps_refl);
    try (eapply placeValue_keeps; eassumption).
  inv_bind H. eapply placeValue_keeps; eassumption.
Qed.

Lemma onDimension_rows s attr : rows (onDimension refToIndexes s attr) = rows s.
Proof. unfold onDimension. repeat case_match; reflexivity. Qed.

Lemma onDimension_empty s attr :
  empty (onDimension refToIndexes s attr) = empty s \/
  empty (onDimension refToIndexes s attr) = true.
Proof. unfold onDimension. repeat case_match; cbn; auto. Qed.

(** Any token: rows are only appended. *)
Lemma step_grows lm st s tok st' s' :
  step refToIndexes ParseFloat lm (st, s) tok = Ok (st', s') ->
  grows (rows s) (rows s').
Proof.
  unfold step. intros H. destruct tok as [local attr | local | v |].
  - repeat case_match; try (injection H as <- <-); try apply grows_refl.
    + rewrite onDimension_rows. apply grows_refl.
    + inv_bind H. injection H as <- <-. apply grows_refl.
    + inv_bind H. injection H as <- <-. eapply onMergeCell_keeps. eassumption.
    + inv_bind H. injection H as <- <-. eapply onHyperlink_keeps. eassumption.
  - case_match; injection H as <- <-; apply grows_refl.
  - inv_bind H. injection H as <- <-. eapply onCharData_keeps. eassumption.
  - injection H as <- <-. apply grows_refl.
Qed.

(** A token that is no [dimension] element keeps the grid rectangular. *)
Lemma step_keeps lm st s tok st' s' :
  isDimension tok = false ->
  step refToIndexes ParseFloat lm (st, s) tok = Ok (st', s') -> keeps s s'.
Proof.
  unfold step, isDimension, isStart. intros Hnd H.
  destruct tok as [local attr | local | v |].
  - rewrite Hnd in H.
    repeat case_match; try (injection H as <- <-); try apply keeps_refl.
    + inv_bind H. injection H as <- <-. apply keeps_refl.
    + inv_bind H. injection H as <- <-. eapply onMergeCell_keeps. eassumption.
    + inv_bind H. injection H as <- <-. eapply onHyperlink_keeps. eassumption.
  - case_match; injection H as <- <-; apply keeps_refl.
  - inv_bind H. injection H as <- <-. eapply onCharData_keeps. eassumption.
  - injection H as <- <-. apply keeps_refl.
Qed.

Lemma decode_app lm t1 t2 ls :
  decode refToIndexes ParseFloat lm (t1 ++ t2) ls =
  decode refToIndexes ParseFloat lm t1 ls ≫= decode refToIndexes ParseFloat lm t2.
Proof.
  revert ls. induction t1 as [|tok t1 IH]; intros ls; [reflexivity |].
  cbn [app decode]. destruct (step _ _ _ _ _) as [ls'|p]; cbn; [apply IH | reflexivity].
Qed.

Lemma decode_grows lm toks ls ls' :
  decode refToIndexes ParseFloat lm toks ls = Ok ls' ->
  grows (rows ls.2) (rows ls'.2).
Proof.
  revert ls. induction toks as [|tok toks IH]; intros ls H.
  - injection H as <-. apply grows_refl.
  - cbn [decode] in H. inv_bind H. destruct ls as [st s], a as [st1 s1].
    eapply grows_trans; [eapply step_grows; eassumption | apply (IH _ H)].
Qed.

Lemma decode_keeps lm toks ls ls' :
  Forall (fun tok => isDimension tok = false) toks ->
  decode refToIndexes ParseFloat lm toks ls = Ok ls' -> keeps ls.2 ls'.2.
Proof.
  intros Hall. revert ls. induction Hall as [|tok toks Hnd _ IH]; intros ls H.
  - injection H as <-. apply keeps_refl.
  - cbn [decode] in H. inv_bind H. destruct ls as [st s], a as [st1 s1].
    eapply keeps_trans; [eapply step_keeps; eassumption | apply (IH _ H)].
Qed.

(** A panic in the loop is a panic of [parseSheet], whatever follows in
    the stream. *)
Lemma decode_panics lm t1 t2 ls p :
  decode refToIndexes ParseFloat lm t1 ls = Panic p ->
  decode refToIndexes ParseFloat lm (t1 ++ t2) ls = Panic p.
Proof.
  revert ls. induction t1 as [|tok t1 IH]; intros ls H; [discriminate H |].
  cbn [app decode] in *.
  destruct (step refToIndexes ParseFloat lm ls tok) as [ls'|q]; cbn in *;
    [apply IH, H | exact H].
Qed.

Lemma parseSheet_panics s t1 t2 fin p :
  openXML (d s) (docname s) = Opened (mkDecoder (t1 ++ t2) fin) ->
  decode refToIndexes ParseFloat (loadLinks relsName s) t1 (initLoop, s)
    = Panic p ->
  parseSheet refToIndexes ParseFloat relsName s = Panic p.
Proof.
  intros Hopen Hdec. unfold parseSheet. rewrite Hopen. cbn [pending].
  rewrite (decode_panics _ _ t2 _ _ Hdec). reflexivity.
Qed.

(** What [parseSheet] returns once the worksheet part is open. *)
Lemma parseSheet_opened s dec s' e :
  openXML (d s) (docname s) = Opened dec ->
  parseSheet refToIndexes ParseFloat relsName s = Ok (s', e) ->
  exists st',
    decode refToIndexes ParseFloat (loadLinks relsName s) (pending dec)
      (initLoop, s) = Ok (st', s') /\
    e = (if error_eqb (final dec) EOF then None else Some (final dec)).
Proof.
  intros Hopen. unfold parseSheet. rewrite Hopen. intros H. inv_bind H.
  destruct a as [st' s1]. injection H as <- <-. exists st'. auto.
Qed.

(** C1 (as amended). When the grid still has no row once the last
    [dimension] element has been read (the stream is [pre ++ post], with no
    such element in [post] and no row made by [pre]: no value was placed
    before) and [parseSheet] returns, every row of the grid has exactly
    [maxCol + 1] columns, whatever [minCol] is and however many rows were
    populated; and rows never shrink: the grid after any prefix of the
    stream is contained, row by row and with the same row lengths, in the
    final grid. *)
Theorem grid_rectangular (s : Sheet) (pre post : list Token) (fin : error)
    (s' : Sheet) (e : option error) :
  openXML (d s) (docname s) = Opened (mkDecoder (pre ++ post) fin) ->
  (forall ls,
     decode refToIndexes ParseFloat (loadLinks relsName s) pre (initLoop, s)
       = Ok ls -> rows ls.2 = []) ->
  Forall (fun tok => isDimension tok = false) post ->
  parseSheet refToIndexes ParseFloat relsName s = Ok (s', e) ->
  Forall (fun rw => len (cols rw) = maxCol s' + 1) (rows s') /\
  forall k ls,
    decode refToIndexes ParseFloat (loadLinks relsName s)
      (take k (pre ++ post)) (initLoop, s) = Ok ls ->
    grows (rows ls.2) (rows s').
Proof.
  intros Hopen Hpre Hpost Hparse.
  destruct (parseSheet_opened _ _ _ _ Hopen Hparse) as (st' & Hdec & _).
  cbn [pending] in Hdec. split.
  - rewrite decode_app in Hdec. inv_bind Hdec. destruct a as [st1 s1].
    pose proof (Hpre _ Ha) as Hrows. cbn in Hrows.
    destruct (decode_keeps _ _ _ _ Hpost Hdec) as (_ & _ & Hrect & _).
    apply Hrect. unfold rect. cbn. rewrite Hrows. constructor.
  - intros k ls Hk.
    rewrite <- (take_drop k (pre ++ post)) in Hdec.
    rewrite decode_app, Hk in Hdec. cbn in Hdec.
    apply decode_grows in Hdec. exact Hdec.
Qed.

End Keeps.

Lemma grid_rectangular_witness :
  exists s' e,
    Sample.parse SampleWidth.indented Sample.noRels = Ok (s', e) /\
    Forall (fun rw => len (cols rw) = maxCol s' + 1) (rows s') /\
    length (rows s') = 2%nat.
Proof.
  destruct (Sample.parse SampleWidth.indented Sample.noRels) as [[s' e]|p] eqn:E;
    [| vm_compute in E; discriminate E].
  exists s', e. split; [reflexivity |].
  split.
  - refine (proj1 (grid_rectangular Codec.refToIndexes Sample.ParseFloat
                     Sample.relsName
                     (Sample.sheetOf SampleWidth.indented Sample.noRels)
                     [OtherToken; CharData " "; Sample.elem "worksheet" [];
                      CharData " "; Sample.elem "c" [("r", "H8")];
                      CharData "9"; EndElement "c";
                      Sample.elem "dimension" [("ref", "A1:C3")]]
                     ([CharData " "] ++ Sample.textCell "A1" "x"
                      ++ [CharData " "] ++ Sample.textCell "B2" "y")
                     EOF s' e _ _ _ E)).
    + reflexivity.
    + intros ls Hls. vm_compute in Hls. injection Hls as <-. reflexivity.
    + repeat constructor.
  - vm_compute in E. injection E as <- _. reflexivity.
Defined.

(** C1 (as stated) fails when the dimension does not start at column A:
    with the dimension B2:C3 and a cell at B2, both rows have three columns,
    and [maxCol - minCol + 1] is two. It fails as well when the dimension
    comes after a cell: the row made for the cell has one column and stays
    so under the dimension A1:C3. *)
Lemma grid_width_counterexample :
  (exists s' e,
     Sample.parse SampleWidth.offsetSheet Sample.noRels = Ok (s', e) /\
     maxCol s' - minCol s' + 1 = 2 /\
     map (fun rw => len (cols rw)) (rows s') = [3; 3] /\
     ~ Forall (fun rw => len (cols rw) = maxCol s' - minCol s' + 1) (rows s')) /\
  (exists s' e,
     Sample.parse SampleWidth.trailingDimension Sample.noRels = Ok (s', e) /\
     maxCol s' - minCol s' + 1 = 3 /\
     map (fun rw => len (cols rw)) (rows s') = [1] /\
     ~ Forall (fun rw => len (cols rw) = maxCol s' - minCol s' + 1) (rows s')).
Proof.
  split.
  - eexists _, _. split; [vm_compute; reflexivity |].
    split; [reflexivity |]. split; [reflexivity |].
    intros H. apply Forall_cons_1 in H as [H _]. vm_compute in H. discriminate H.
  - eexists _, _. split; [vm_compute; reflexivity |].
    split; [reflexivity |]. split; [reflexivity |].
    intros H. apply Forall_cons_1 in H as [H _]. vm_compute in H. discriminate H.
Qed.

(** A [dimension] element that widens the sheet after a row exists leaves
    that row short, and the next cell beyond its end panics. *)
Lemma late_dimension_panics :
  Sample.parse SampleWidth.lateDimension Sample.noRels = Panic IndexOutOfRange.
Proof. vm_compute. reflexivity. Qed.

(** ** Outside a cell *)

Section EmptySheet.

Context {RT : Runtime}.

Variable refToIndexes : string -> Z * Z.
Variable ParseFloat : string -> option float64.
Variable relsName : string -> string.

(** Outside a cell, a token that opens no cell and is no merge region or
    hyperlink leaves the rows alone and the emptiness flag as it is or set,
    and no cell is open after it; unless it is a [dimension] element it
    leaves the whole sheet as it is. *)
Lemma step_cellFree lm st s tok st' s' :
  currentCell st = "" -> cellFree tok = true ->
  step refToIndexes ParseFloat lm (st, s) tok = Ok (st', s') ->
  rows s' = rows s /\ (empty s' = empty s \/ empty s' = true) /\
  currentCell st' = "" /\ (isDimension tok = false -> s' = s).
Proof.
  unfold step, cellFree, isDimension, isStart. intros Hcur Hfree H.
  apply negb_true_iff in Hfree.
  destruct tok as [local attr | local | v |].
  - apply orb_false_elim in Hfree as [Hfree Hh].
    apply orb_false_elim in Hfree as [Hc Hm].
    rewrite Hc, Hm, Hh in H.
    destruct (String.eqb local "dimension").
    { injection H as <- <-.
      split; [apply onDimension_rows |]. split; [apply onDimension_empty |].
      split; [exact Hcur | discriminate]. }
    repeat case_match; injection H as <- <-; auto.
  - case_match; injection H as <- <-; auto.
  - inv_bind_as H as s1 Hs1. injection H as <- <-.
    unfold onCharData in Hs1. rewrite Hcur in Hs1. cbn in Hs1.
    injection Hs1 as <-. auto.
  - injection H as <- <-. auto.
Qed.

Lemma decode_cellFree lm toks st s st' s' :
  currentCell st = "" ->
  Forall (fun tok => cellFree tok = true) toks ->
  decode refToIndexes ParseFloat lm toks (st, s) = Ok (st', s') ->
  rows s' = rows s /\ (empty s' = empty s \/ empty s' = true) /\
  currentCell st' = "" /\
  (Forall (fun tok => isDimension tok = false) toks -> s' = s).
Proof.
  intros Hcur Hall. revert st s Hcur.
  induction Hall as [|tok toks Hfree _ IH]; intros st s Hcur H.
  - injection H as <- <-. auto.
  - cbn [decode] in H. inv_bind_as H as [st1 s1] Hstep.
    destruct (step_cellFree _ _ _ _ _ _ Hcur Hfree Hstep) as (Hr1 & He1 & Hcur1 & Hs1).
    destruct (IH _ _ Hcur1 H) as (Hr & He & Hc & Hs).
    split; [congruence |]. split.
    { destruct He as [He | He]; [rewrite He; exact He1 | auto]. }
    split; [exact Hc |].
    intros Hnd. apply Forall_cons_1 in Hnd as [Hnd1 Hnd].
    rewrite (Hs Hnd). apply Hs1, Hnd1.
Qed.

(** So the grid of a sheet with no row still has none after a prefix of
    the stream with no cell, merge region or hyperlink, whatever character
    data and other elements the prefix holds. *)
Lemma cellFree_prefix_rows lm pre s ls :
  Forall (fun tok => cellFree tok = true) pre -> rows s = [] ->
  decode refToIndexes ParseFloat lm pre (initLoop, s) = Ok ls ->
  rows ls.2 = [].
Proof.
  intros Hpre Hnil Hdec. destruct ls as [st' s'].
  destruct (decode_cellFree lm pre initLoop s st' s' eq_refl Hpre Hdec)
    as (Hrows & _).
  cbn. congruence.
Qed.

End EmptySheet.

(** ** Hyperlinks *)

Lemma look_cell s r c v : cellAt s r c = Some v -> look s r c = v.
Proof. unfold look. intros ->. reflexivity. Qed.

(** For a reference that is sound, the string composed is the text of the
    cell, a space and the link in angle brackets when the grid has the cell
    and it holds a string, and the link otherwise. *)
Lemma composeLink_sound s row col link :
  0 <= row -> 0 <= col ->
  composeLink s row col link =
    Ok (match Raw (look s row col) with
        | AString sstr => sstr +:+ " <" +:+ link +:+ ">"
        | _ => link
        end).
Proof.
  intros Hrow Hcol. unfold composeLink.
  destruct (Z.gtb_spec (len (rows s)) row) as [Hlt | Hge].
  - destruct (index_in_range (rows s) row) as (rw & Hix & Hrw); [lia |].
    rewrite Hix. cbn.
    destruct (Z.gtb_spec (len (cols rw)) col) as [Hclt | Hcge].
    + destruct (index_in_range (cols rw) col) as (v & Hiv & Hv); [lia |].
      rewrite Hiv. cbn.
      assert (Hlook : look s row col = v).
      { apply look_cell. rewrite cellAt_lookup by lia. rewrite Hrw. exact Hv. }
      rewrite Hlook. destruct (Raw v); reflexivity.
    + assert (Hnone : cellAt s row col = None).
      { rewrite cellAt_lookup by lia. rewrite Hrw. cbn. unfold len in Hcge.
        apply lookup_ge_None_2. lia. }
      unfold look. rewrite Hnone. reflexivity.
  - assert (Hnone : cellAt s row col = None).
    { rewrite cellAt_lookup by lia. unfold len in Hge.
      rewrite lookup_ge_None_2 by lia. reflexivity. }
    unfold look. rewrite Hnone. reflexivity.
Qed.

(** The string [composeLink] returns, when it returns: the reference may
    be unsound then, but only with the cell outside the grid. *)
Lemma composeLink_Ok s row col link link' :
  composeLink s row col link = Ok link' ->
  link' = match Raw (look s row col) with
          | AString sstr => sstr +:+ " <" +:+ link +:+ ">"
          | _ => link
          end.
Proof.
  intros H.
  destruct (Z_lt_le_dec row 0) as [Hrow | Hrow].
  { unfold composeLink in H.
    destruct (Z.gtb_spec (len (rows s)) row) as [_ | Hge];
      [| unfold len in Hge; lia].
    rewrite index_out_of_range in H by lia. discriminate H. }
  destruct (Z_lt_le_dec col 0) as [Hcol | Hcol].
  { rewrite look_negative by lia. cbn.
    unfold composeLink in H.
    destruct (Z.gtb_spec (len (rows s)) row) as [Hlt | Hge];
      [| congruence].
    inv_bind_as H as rw Hrw.
    destruct (Z.gtb_spec (len (cols rw)) col) as [_ | Hge];
      [| unfold len in Hge; lia].
    rewrite index_out_of_range in H by lia. discriminate H. }
  rewrite composeLink_sound in H by assumption. congruence.
Qed.

(** C5 (as amended). For every [hyperlink] element: the target is the entry
    of the link map for the [id] attribute, the empty string when there is
    none; the string composed is the text of the referenced cell, a space
    and the target in angle brackets when that cell holds a string, and the
    target alone otherwise. Whenever the element returns, that string is the
    value and the display string of the referenced cell when the cell lies
    within the declared bounds, the sheet is as it was when the cell lies
    beyond [maxRow] or [maxCol], and every other cell is as before. And the
    element returns when its reference has no negative index and the sheet
    is well formed. *)
Theorem hyperlink_composition {RT : Runtime} (refToIndexes : string -> Z * Z)
    (linkmap : gmap string string) (s : Sheet) (attr : list Attr)
    (col row : Z) :
  refToIndexes (getAttr attr "ref") = (col, row) ->
  let target :=
    match linkmap !! getAttr attr "id" with
    | Some url => url
    | None => ""
    end in
  let link :=
    match Raw (look s row col) with
    | AString text => text +:+ " <" +:+ target +:+ ">"
    | _ => target
    end in
  (forall s',
     onHyperlink refToIndexes linkmap s attr = Ok s' ->
     (row <= maxRow s -> col <= maxCol s ->
      cellAt s' row col = Some (NewValue (AString link) link)) /\
     (row > maxRow s \/ col > maxCol s -> s' = s) /\
     (forall r c, (r, c) <> (row, col) -> look s' r c = look s r c) /\
     (forall r c v, (r, c) <> (row, col) -> cellAt s r c = Some v ->
                    cellAt s' r c = Some v)) /\
  (wf s -> 0 <= row -> 0 <= col ->
   returns (onHyperlink refToIndexes linkmap s attr)).
Proof.
  intros Href target link.
  assert (Ht : default "" (linkmap !! getAttr attr "id") = target).
  { subst target. destruct (linkmap !! getAttr attr "id"); reflexivity. }
  unfold onHyperlink. rewrite Href, Ht. split.
  - intros s' Hrun. inv_bind_as Hrun as link' Hlink.
    apply composeLink_Ok in Hlink. fold link in Hlink. subst link'.
    destruct (placeValue_effect _ _ _ _ _ _ Hrun) as (Hin & Hout & Hlook & Hkeep).
    split; [intros Hr Hc; apply Hin; assumption |].
    split; [exact Hout |]. split; assumption.
  - intros Hwf Hrow Hcol. rewrite composeLink_sound by assumption. cbn.
    destruct (placeValue_total s row col (AString link) link Hwf Hrow Hcol)
      as (s' & Hs' & _).
    exists s'. exact Hs'.
Qed.

Lemma hyperlink_composition_witness :
  (exists s',
     onHyperlink Codec.refToIndexes SampleLink.links SampleLink.gridExample
       SampleLink.linkA1 = Ok s' /\
     cellAt s' 0 0 = Some (NewValue (AString "Example <http://x>")
                                    "Example <http://x>")) /\
  (exists s',
     onHyperlink Codec.refToIndexes SampleLink.links SampleLink.gridExample
       SampleLink.linkB1 = Ok s' /\
     cellAt s' 0 1 = Some (NewValue (AString "http://x") "http://x")).
Proof.
  assert (Hwf : wf SampleLink.gridExample).
  { split; [repeat constructor |]. split; vm_compute; reflexivity. }
  split.
  - destruct (hyperlink_composition Codec.refToIndexes SampleLink.links
                SampleLink.gridExample SampleLink.linkA1 0 0 eq_refl)
      as (Hcell & Hret).
    destruct Hret as [s' Hs']; [exact Hwf | lia | lia |].
    exists s'. split; [exact Hs' |].
    apply (proj1 (Hcell s' Hs')); cbn; lia.
  - destruct (hyperlink_composition Codec.refToIndexes SampleLink.links
                SampleLink.gridExample SampleLink.linkB1 1 0 eq_refl)
      as (Hcell & Hret).
    destruct Hret as [s' Hs']; [exact Hwf | lia | lia |].
    exists s'. split; [exact Hs' |].
    apply (proj1 (Hcell s' Hs')); cbn; lia.
Defined.

(** C5 (as stated) fails for a hyperlink beyond the bounds: with columns
    0..1 and rows 0..1 declared, a hyperlink at C3 returns the sheet as it
    was, and no cell has the target as its display string. *)
Lemma hyperlink_composition_counterexample :
  exists s',
    onHyperlink Codec.refToIndexes SampleLink.links SampleLink.gridExample
      SampleLink.linkC3 = Ok s' /\
    s' = SampleLink.gridExample /\
    cellAt s' 2 2 = None /\
    display (look s' 2 2) <> "http://x".
Proof.
  eexists. split; [vm_compute; reflexivity |].
  split; [reflexivity |]. split; [reflexivity |]. discriminate.
Qed.

(** A hyperlink beyond the declared bounds composes its string and then
    places nothing. *)
Lemma hyperlink_out_of_bounds {RT : Runtime} refToIndexes linkmap s attr col row s' :
  refToIndexes (getAttr attr "ref") = (col, row) ->
  row > maxRow s \/ col > maxCol s ->
  onHyperlink refToIndexes linkmap s attr = Ok s' -> s' = s.
Proof.
  intros Href Hout. unfold onHyperlink. rewrite Href. intros H. inv_bind H.
  unfold placeValue in H.
  destruct (Z.gtb_spec col (maxCol s)); [cbn in H; congruence |].
  destruct (Z.gtb_spec row (maxRow s)); [cbn in H; congruence | lia].
Qed.

(** The whole path: the link map read from the relationships part, the
    composition for a cell with text and for a cell without, and a dangling
    identifier, which gives the empty string. *)
Lemma parseSheet_hyperlinks :
  exists s',
    Sample.parse SampleLink.linkedSheet SampleLink.rels = Ok (s', None) /\
    map display (concat (map cols (rows s')))
    = ["Example <http://x>"; "http://x"; ""].
Proof. eexists. split; vm_compute; reflexivity. Qed.

(** ** Malformed references *)

(** Character data of a cell whose reference has a negative column or row
    is dropped. *)
Lemma charData_malformed_discarded {RT : Runtime} refToIndexes ParseFloat st s v c r :
  refToIndexes (currentCell st) = (c, r) -> c < 0 \/ r < 0 ->
  onCharData refToIndexes ParseFloat st s v = Ok s.
Proof.
  intros Href Hneg. unfold onCharData. rewrite Href.
  destruct (String.eqb (currentCell st) ""); [reflexivity |].
  destruct (Z.geb_spec c 0); destruct (Z.geb_spec r 0); try reflexivity; lia.
Qed.

(** A [mergeCell] element whose end reference has a negative row, or whose
    only reference is malformed in both parts, writes nothing. *)
Lemma mergeCell_malformed_end {RT : Runtime} refToIndexes s attr sc sr ec er :
  mergeEnds refToIndexes attr = (sc, sr, ec, er) -> er < sr ->
  onMergeCell refToIndexes s attr = Ok s.
Proof.
  intros Hends Hlt. unfold onMergeCell. rewrite Hends. unfold mergeRange.
  apply forRange_empty. exact Hlt.
Qed.

(** C6 (the code departs from it). A [hyperlink] element whose reference
    gives a negative row is not dropped: the row test [len(s.rows) > row]
    holds for every negative row, and [s.rows[row]] panics. *)
Theorem hyperlink_malformed_panics {RT : Runtime} (refToIndexes : string -> Z * Z)
    (linkmap : gmap string string) (s : Sheet) (attr : list Attr)
    (col row : Z) :
  refToIndexes (getAttr attr "ref") = (col, row) -> row < 0 ->
  onHyperlink refToIndexes linkmap s attr = Panic IndexOutOfRange.
Proof.
  intros Href Hneg. unfold onHyperlink, composeLink. rewrite Href.
  destruct (Z.gtb_spec (len (rows s)) row) as [_ | Hge]; [| unfold len in Hge; lia].
  rewrite index_out_of_range by (left; exact Hneg). reflexivity.
Qed.

Lemma hyperlink_malformed_panics_witness :
  onHyperlink Codec.refToIndexes SampleLink.links SampleLink.gridExample
    SampleLink.linkBad = Panic IndexOutOfRange.
Proof.
  apply (hyperlink_malformed_panics Codec.refToIndexes SampleLink.links
           SampleLink.gridExample SampleLink.linkBad (-1) (-1)).
  - reflexivity.
  - lia.
Defined.

(** The same at the level of [parseSheet]: one malformed hyperlink, or a
    merge region whose first reference is malformed, ends the decode of an
    otherwise sound worksheet with a panic. *)
Lemma parseSheet_bad_hyperlink_panics :
  Sample.parse SampleLink.badHyperlink Sample.noRels = Panic IndexOutOfRange.
Proof. vm_compute. reflexivity. Qed.

Lemma parseSheet_bad_mergeCell_panics :
  Sample.parse SampleLink.badMerge Sample.noRels = Panic IndexOutOfRange.
Proof. vm_compute. reflexivity. Qed.

(** ** [Scan] *)

Lemma scanInto_holds a raw : holds a raw = true -> scanInto a raw = Ok (Some raw).
Proof. destruct a, raw; cbn; intros H; try discriminate H; reflexivity. Qed.

Lemma scanInto_mismatch a raw :
  typed a = true -> holds a raw = false ->
  scanInto a raw = Panic InterfaceConversion.
Proof. destruct a, raw; cbn; intros Ht H; try discriminate; reflexivity. Qed.

Lemma scanInto_Some a raw x : scanInto a raw = Ok (Some x) -> x = raw /\ holds a raw = true.
Proof. destruct a, raw; cbn; intros H; try discriminate H; injection H as <-; auto. Qed.

Lemma index_nat {A} (l : list A) (i : nat) (a : A) :
  l !! i = Some a -> index l (Z.of_nat i) = Ok a.
Proof. intros H. apply index_Ok. rewrite Nat2Z.id. split; [lia | exact H]. Qed.

(** A run of destinations that hold their cells is scanned through: the raw
    values are stored, and the scan goes on with the next column. *)
Lemma scanArgs_prefix cs pre rest i :
  (forall j a, pre !! j = Some a ->
     exists v, cs !! (i + j)%nat = Some v /\ holds a (Raw v) = true) ->
  scanArgs cs i (pre ++ rest) =
    scanArgs cs (i + length pre) rest ≫= fun '(xs, e) =>
      Ok (map Raw (take (length pre) (drop i cs)) ++ xs, e).
Proof.
  revert i. induction pre as [|a pre IH]; intros i Hpre.
  - cbn. rewrite Nat.add_0_r. destruct (scanArgs cs i rest) as [[xs e]|p]; reflexivity.
  - destruct (Hpre 0%nat a eq_refl) as (v & Hv & Hh). rewrite Nat.add_0_r in Hv.
    cbn [app scanArgs]. rewrite (index_nat _ _ _ Hv). cbn.
    rewrite (scanInto_holds _ _ Hh). cbn.
    rewrite IH.
    2:{ intros j b Hb. destruct (Hpre (S j) b Hb) as (w & Hw & Hhw).
        exists w. split; [| exact Hhw]. rewrite <- Hw. f_equal. lia. }
    cbn [length]. replace (S i + length pre)%nat with (i + S (length pre))%nat by lia.
    rewrite (drop_S _ _ _ Hv). cbn [take map].
    destruct (scanArgs cs _ rest) as [[xs e]|p]; reflexivity.
Qed.

(** A scan that returns no error has stored the raw value of each cell in
    a destination that holds it. *)
Lemma scanArgs_nil_error cs i args stored :
  scanArgs cs i args = Ok (stored, None) ->
  stored = map Raw (take (length args) (drop i cs)) /\
  (length args <= length (drop i cs))%nat /\
  forall j a v, args !! j = Some a -> cs !! (i + j)%nat = Some v ->
                holds a (Raw v) = true.
Proof.
  revert i stored. induction args as [|a args IH]; intros i stored H.
  - injection H as <-. cbn. split; [reflexivity |]. split; [lia |].
    intros j b v Hb. discriminate Hb.
  - cbn [scanArgs] in H. inv_bind_as H as v Hv. inv_bind_as H as [x|] Hx;
      [| discriminate H].
    apply index_Ok in Hv as [_ Ha]. rewrite Nat2Z.id in Ha.
    apply scanInto_Some in Hx as [-> Hh].
    inv_bind_as H as [xs e] Hrest. injection H as <- ->.
    destruct (IH _ _ Hrest) as (-> & Hlen & Hall).
    rewrite (drop_S _ _ _ Ha).
    split; [reflexivity |]. split; [cbn [length]; lia |].
    intros j b w Hb Hw. destruct j as [|j].
    + injection Hb as <-. rewrite Nat.add_0_r in Hw. congruence.
    + apply (Hall j b w Hb). rewrite <- Hw. f_equal. lia.
Qed.

(** C7 (as amended). With the cursor on a row, [Scan] fills the
    destinations in order while each holds its cell. At the first
    destination that does not, the destinations before position
    [length pre] having been filled: a pointer to one of the five supported
    types whose cell holds a value of another type makes [Scan] panic on the
    type assertion, it does not return an error and stores no converted
    value; a destination of an unsupported type makes [Scan] return
    [ErrInvalidScanType], when the row has a column at that position; and
    when the row has none, [Scan] panics on the column index, whatever the
    destination is, for the column is indexed before the type switch. And
    whenever [Scan] returns no error, what it stored is the raw value of
    each cell, in a destination of that very type. *)
Theorem Scan_type_mismatch (s : Sheet) (rw : row) (pre : list Dest)
    (a : Dest) (post : list Dest) :
  index (rows s) (iterRow s) = Ok rw ->
  (forall j b, pre !! j = Some b ->
     exists w, cols rw !! j = Some w /\ holds b (Raw w) = true) ->
  (forall v, cols rw !! length pre = Some v ->
     typed a = true -> holds a (Raw v) = false ->
     Scan s (pre ++ a :: post) = Panic InterfaceConversion) /\
  (forall v, cols rw !! length pre = Some v ->
     a = POther ->
     Scan s (pre ++ a :: post)
     = Ok (map Raw (take (length pre) (cols rw)), Some ErrInvalidScanType)) /\
  (cols rw !! length pre = None ->
   Scan s (pre ++ a :: post) = Panic IndexOutOfRange) /\
  (forall args stored,
     Scan s args = Ok (stored, None) ->
     stored = map Raw (take (length args) (cols rw)) /\
     forall j b w, args !! j = Some b -> cols rw !! j = Some w ->
                   holds b (Raw w) = true).
Proof.
  intros Hrow Hpre. unfold Scan. rewrite Hrow. cbn.
  assert (Hrun : forall rest,
            scanArgs (cols rw) 0 (pre ++ rest) =
            scanArgs (cols rw) (length pre) rest ≫= fun '(xs, e) =>
              Ok (map Raw (take (length pre) (cols rw)) ++ xs, e)).
  { intros rest. rewrite (scanArgs_prefix (cols rw) pre rest 0); [reflexivity |].
    intros j b Hb. apply Hpre, Hb. }
  split; [| split; [| split]].
  - intros v Hv Ht Hh. rewrite Hrun. cbn [scanArgs].
    rewrite (index_nat _ _ _ Hv). cbn. rewrite (scanInto_mismatch _ _ Ht Hh).
    reflexivity.
  - intros v Hv ->. rewrite Hrun. cbn [scanArgs].
    rewrite (index_nat _ _ _ Hv). cbn. rewrite app_nil_r. reflexivity.
  - intros Hnone. rewrite Hrun. cbn [scanArgs].
    rewrite index_out_of_range; [reflexivity |].
    right. apply lookup_ge_None_1 in Hnone. unfold len. lia.
  - intros args stored H. apply scanArgs_nil_error in H as (-> & _ & Hall).
    split; [reflexivity |]. intros j b w Hb Hw. apply (Hall j b w Hb Hw).
Qed.

Lemma Scan_type_mismatch_witness :
  Scan SampleScan.oneRow [PString; PInt] = Panic InterfaceConversion /\
  Scan SampleScan.oneRow [PString; POther; PBool]
  = Ok ([AString "x"], Some ErrInvalidScanType) /\
  Scan SampleScan.oneRow [PString; PBool; POther] = Panic IndexOutOfRange.
Proof.
  assert (Hfirst : forall j b, [PString] !! j = Some b ->
            exists w, [NewValue (AString "x") "x"; NewValue (ABool true) "1"] !! j
                      = Some w /\ holds b (Raw w) = true).
  { intros [|j] b Hb; [| destruct j; discriminate Hb].
    injection Hb as <-. eexists. split; reflexivity. }
  assert (Hboth : forall j b, [PString; PBool] !! j = Some b ->
            exists w, [NewValue (AString "x") "x"; NewValue (ABool true) "1"] !! j
                      = Some w /\ holds b (Raw w) = true).
  { intros [|[|j]] b Hb; [| | destruct j; discriminate Hb];
      injection Hb as <-; eexists; split; reflexivity. }
  split; [| split].
  - exact (proj1 (Scan_type_mismatch SampleScan.oneRow
                    (mkRow [NewValue (AString "x") "x"; NewValue (ABool true) "1"])
                    [PString] PInt [] eq_refl Hfirst)
             (NewValue (ABool true) "1") eq_refl eq_refl eq_refl).
  - exact (proj1 (proj2 (Scan_type_mismatch SampleScan.oneRow
                    (mkRow [NewValue (AString "x") "x"; NewValue (ABool true) "1"])
                    [PString] POther [PBool] eq_refl Hfirst))
             (NewValue (ABool true) "1") eq_refl eq_refl).
  - exact (proj1 (proj2 (proj2 (Scan_type_mismatch SampleScan.oneRow
                    (mkRow [NewValue (AString "x") "x"; NewValue (ABool true) "1"])
                    [PString; PBool] POther [] eq_refl Hboth)))
             eq_refl).
Defined.

(** C7 (as stated) fails: scanning the text "x" into a [*int] does not
    return an error, it panics. *)
Lemma Scan_mismatch_counterexample :
  Scan SampleScan.oneRow [PInt] = Panic InterfaceConversion /\
  ~ (exists stored e, Scan SampleScan.oneRow [PInt] = Ok (stored, Some e)).
Proof.
  split; [reflexivity |]. intros (stored & e & H). discriminate H.
Qed.

(** ** The cursor *)




(** ** Shared strings *)

Example ParseInt_index : ParseInt "12" = (12, NoError).
Proof. reflexivity. Qed.

Example ParseInt_no_number : ParseInt "abc" = (0, ErrSyntax).
Proof. reflexivity. Qed.

Example ParseInt_too_large :
  ParseInt "99999999999999999999" = (max_int, ErrRange).
Proof. reflexivity. Qed.

(** The shared-string case of the character data of a cell. *)
Lemma onCharData_sharedString {RT : Runtime} refToIndexes ParseFloat st s v c r :
  currentCell st <> "" ->
  currentCellType st = SharedStringCellType ->
  refToIndexes (currentCell st) = (c, r) -> 0 <= c -> 0 <= r ->
  onCharData refToIndexes ParseFloat st s v =
    index (strings (d s)) (ParseInt v).1 ≫= fun str =>
      placeValue s r c (AString str) str.
Proof.
  intros Hcell Htype Href Hc Hr. unfold onCharData.
  apply String.eqb_neq in Hcell. rewrite Hcell, Href, Htype.
  destruct (Z.geb_spec c 0); [| lia]. destruct (Z.geb_spec r 0); [| lia].
  reflexivity.
Qed.

(** What [ParseInt] returns with an error: 0 for text that is no integer,
    the nearest [int64] for a number out of its range. *)
Lemma ParseInt_error v :
  ((ParseInt v).2 = ErrSyntax -> (ParseInt v).1 = 0) /\
  ((ParseInt v).2 = ErrRange ->
   (ParseInt v).1 = max_int \/ (ParseInt v).1 = min_int).
Proof.
  unfold ParseInt. destruct v as [|c r]; [cbn; split; [auto | discriminate] |].
  destruct (ParseUint _) as [un [| |]]; cbn [fst snd].
  - repeat case_match; cbn; split; try discriminate; auto.
  - split; [auto | discriminate].
  - repeat case_match; cbn; split; try discriminate; auto.
Qed.

(** C8 (as amended). For the character data [v] of a shared-string cell
    with a sound reference, the index is the integer [ParseInt] reads from
    [v], with its error dropped. Inside the table, the string at that index
    is what the case places, as value and as display string: whenever the
    case returns, the cell holds it when the cell is within the declared
    bounds, and the sheet is as it was when the cell is beyond them; and the
    case returns on a well-formed sheet. Outside the table, which is where a
    number beyond the range of [int64] ends, the index expression panics
    with an index out of range: no other string is placed, and a
    [parseSheet] whose loop reads [v] in that state panics, it returns no
    error. And text that is no integer at all is read as index 0: the first
    string of the table is placed. *)
Theorem sharedString_lookup {RT : Runtime} (refToIndexes : string -> Z * Z)
    (ParseFloat : string -> option float64) (st : loopState) (s : Sheet)
    (v : string) (c r : Z) :
  currentCell st <> "" ->
  currentCellType st = SharedStringCellType ->
  refToIndexes (currentCell st) = (c, r) -> 0 <= c -> 0 <= r ->
  let si := (ParseInt v).1 in
  (forall str, 0 <= si -> strings (d s) !! Z.to_nat si = Some str ->
     onCharData refToIndexes ParseFloat st s v
       = placeValue s r c (AString str) str /\
     (forall s', onCharData refToIndexes ParseFloat st s v = Ok s' ->
        (r <= maxRow s -> c <= maxCol s ->
         cellAt s' r c = Some (NewValue (AString str) str)) /\
        (r > maxRow s \/ c > maxCol s -> s' = s)) /\
     (wf s -> returns (onCharData refToIndexes ParseFloat st s v))) /\
  (si < 0 \/ len (strings (d s)) <= si ->
   onCharData refToIndexes ParseFloat st s v = Panic IndexOutOfRange /\
   forall relsName s0 pre post fin,
     openXML (d s0) (docname s0)
       = Opened (mkDecoder (pre ++ CharData v :: post) fin) ->
     decode refToIndexes ParseFloat (loadLinks relsName s0) pre (initLoop, s0)
       = Ok (st, s) ->
     parseSheet refToIndexes ParseFloat relsName s0 = Panic IndexOutOfRange) /\
  ((ParseInt v).2 = ErrRange -> len (strings (d s)) <= max_int ->
   onCharData refToIndexes ParseFloat st s v = Panic IndexOutOfRange) /\
  ((ParseInt v).2 = ErrSyntax ->
   si = 0 /\
   forall str, strings (d s) !! 0%nat = Some str ->
     onCharData refToIndexes ParseFloat st s v
       = placeValue s r c (AString str) str).
Proof.
  intros Hcell Htype Href Hc Hr si.
  pose proof (onCharData_sharedString refToIndexes ParseFloat st s v c r
                Hcell Htype Href Hc Hr) as Hcase.
  fold si in Hcase.
  split; [| split; [| split]].
  - intros str Hsi Hstr.
    assert (Hix : index (strings (d s)) si = Ok str) by (apply index_Ok; auto).
    rewrite Hcase, Hix. cbn. split; [reflexivity |]. split.
    + intros s' Hp.
      destruct (placeValue_effect _ _ _ _ _ _ Hp) as (Hin & Hout & _).
      split; [| exact Hout]. intros Hrow Hcol. apply Hin; assumption.
    + intros Hwf.
      destruct (placeValue_total s r c (AString str) str Hwf Hr Hc)
        as (s' & Hp & _).
      exists s'. exact Hp.
  - intros Hout.
    assert (Hpanic : onCharData refToIndexes ParseFloat st s v
                     = Panic IndexOutOfRange).
    { rewrite Hcase, index_out_of_range by exact Hout. reflexivity. }
    split; [exact Hpanic |].
    intros relsName s0 pre post fin Hopen Hpre.
    apply (parseSheet_panics refToIndexes ParseFloat relsName s0
             (pre ++ [CharData v]) post fin).
    + rewrite <- app_assoc. exact Hopen.
    + rewrite decode_app, Hpre. cbn. rewrite Hpanic. reflexivity.
  - intros Hrange Hlen. rewrite Hcase.
    destruct (proj2 (ParseInt_error v) Hrange) as [Hsi | Hsi]; fold si in Hsi;
      rewrite index_out_of_range; try reflexivity.
    + right. lia.
    + left. rewrite Hsi. unfold min_int. lia.
  - intros Hsyntax. pose proof (proj1 (ParseInt_error v) Hsyntax) as Hsi.
    fold si in Hsi. split; [exact Hsi |].
    intros str Hstr. rewrite Hcase, Hsi.
    assert (Hix : index (strings (d s)) 0 = Ok str)
      by (apply index_Ok; split; [lia | exact Hstr]).
    rewrite Hix. reflexivity.
Qed.

Lemma sharedString_lookup_witness :
  (exists s',
     onCharData Codec.refToIndexes Sample.ParseFloat SampleScan.sharedA1
       SampleLink.gridExample "1" = Ok s' /\
     cellAt s' 0 0 = Some (NewValue (AString "second") "second")) /\
  onCharData Codec.refToIndexes Sample.ParseFloat SampleScan.sharedA1
    SampleLink.gridExample "2" = Panic IndexOutOfRange /\
  onCharData Codec.refToIndexes Sample.ParseFloat SampleScan.sharedA1
    SampleLink.gridExample "99999999999999999999" = Panic IndexOutOfRange /\
  onCharData Codec.refToIndexes Sample.ParseFloat SampleScan.sharedA1
    SampleLink.gridExample " "
  = placeValue SampleLink.gridExample 0 0 (AString "first") "first".
Proof.
  assert (Hwf : wf SampleLink.gridExample).
  { split; [repeat constructor |]. split; vm_compute; reflexivity. }
  assert (Hne : currentCell SampleScan.sharedA1 <> "") by discriminate.
  split; [| split; [| split]].
  - destruct (proj1 (sharedString_lookup Codec.refToIndexes Sample.ParseFloat
                       SampleScan.sharedA1 SampleLink.gridExample "1" 0 0
                       Hne eq_refl eq_refl ltac:(lia) ltac:(lia))
                "second" ltac:(vm_compute; discriminate) eq_refl)
      as (_ & Heffect & Hreturns).
    destruct (Hreturns Hwf) as [s' Hs'].
    exists s'. split; [exact Hs' |].
    apply (proj1 (Heffect s' Hs')); cbn; lia.
  - refine (proj1 (proj1 (proj2 (sharedString_lookup Codec.refToIndexes
                     Sample.ParseFloat
                     SampleScan.sharedA1 SampleLink.gridExample "2" 0 0
                     Hne eq_refl eq_refl _ _)) _)); [lia | lia |].
    right. vm_compute. discriminate.
  - refine (proj1 (proj2 (proj2 (sharedString_lookup Codec.refToIndexes
                     Sample.ParseFloat
                     SampleScan.sharedA1 SampleLink.gridExample
                     "99999999999999999999" 0 0
                     Hne eq_refl eq_refl _ _))) eq_refl _); [lia | lia |].
    vm_compute. discriminate.
  - refine (proj2 (proj2 (proj2 (proj2 (sharedString_lookup Codec.refToIndexes
                     Sample.ParseFloat
                     SampleScan.sharedA1 SampleLink.gridExample " " 0 0
                     Hne eq_refl eq_refl _ _))) eq_refl) "first" eq_refl);
      lia.
Defined.

(** C8 (as stated) fails. Text that is no integer is looked up as index 0
    and the first shared string is placed with no error: so it is for the
    blank text around the value of an indented cell, which leaves the first
    string in a cell whose index is 1. And an index beyond the table is not
    reported either: the decode panics, [parseSheet] returns no error. *)
Lemma sharedString_lookup_counterexample :
  (exists s',
     onCharData Codec.refToIndexes Sample.ParseFloat SampleScan.sharedA1
       SampleLink.gridExample "abc" = Ok s' /\
     cellAt s' 0 0 = Some (NewValue (AString "first") "first")) /\
  (exists s',
     Sample.parse SampleScan.indentedShared Sample.noRels = Ok (s', None) /\
     cellAt s' 0 0 = Some (NewValue (AString "first") "first")) /\
  (Sample.parse SampleScan.sharedBeyond Sample.noRels = Panic IndexOutOfRange /\
   ~ exists s' e,
       Sample.parse SampleScan.sharedBeyond Sample.noRels = Ok (s', Some e)).
Proof.
  split; [| split].
  - eexists. split; vm_compute; reflexivity.
  - eexists. split; vm_compute; reflexivity.
  - split; [vm_compute; reflexivity |].
    intros (s' & e & H). vm_compute in H. discriminate H.
Qed.

(** ** Lifting a property of [placeValue] to the whole loop *)

Section Lift.

Context {RT : Runtime}.

Variable refToIndexes : string -> Z * Z.
Variable ParseFloat : string -> option float64.
Variable Q : Sheet -> Sheet -> Prop.
Hypothesis Q_refl : forall s, Q s s.
Hypothesis Q_trans : forall s1 s2 s3, Q s1 s2 -> Q s2 s3 -> Q s1 s3.
Hypothesis Q_place :
  forall s r c val str s', placeValue s r c val str = Ok s' -> Q s s'.

Lemma mergeRange_lift sc sr ec er s s' :
  mergeRange sc sr ec er s = Ok s' -> Q s s'.
Proof.
  unfold mergeRange. apply forRange_preserve; [exact Q_refl | exact Q_trans |].
  intros r t t'. apply forRange_preserve; [exact Q_refl | exact Q_trans |].
  intros c u u' H. unfold mergeAt in H.
  repeat case_match; try (injection H as <-; apply Q_refl);
    eapply Q_place; eassumption.
Qed.

Lemma onMergeCell_lift s attr s' :
  onMergeCell refToIndexes s attr = Ok s' -> Q s s'.
Proof.
  unfold onMergeCell. destruct (mergeEnds _ _) as [[[sc sr] ec] er].
  apply mergeRange_lift.
Qed.

Lemma onHyperlink_lift lm s attr s' :
  onHyperlink refToIndexes lm s attr = Ok s' -> Q s s'.
Proof.
  unfold onHyperlink. destruct (refToIndexes _) as [col row].
  intros H. inv_bind_as H as link Hlink. eapply Q_place; eassumption.
Qed.

Lemma onCharData_lift st s v s' :
  onCharData refToIndexes ParseFloat st s v = Ok s' -> Q s s'.
Proof.
  unfold onCharData. intros H.
  repeat case_match; try discriminate;
    try (injection H as <-; apply Q_refl);
    try (eapply Q_place; eassumption).
  inv_bind_as H as str Hstr. eapply Q_place; eassumption.
Qed.

(** A token that is no [dimension] element. *)
Lemma step_lift lm st s tok st' s' :
  isDimension tok = false ->
  step refToIndexes ParseFloat lm (st, s) tok = Ok (st', s') -> Q s s'.
Proof.
  unfold step, isDimension, isStart. intros Hnd H.
  destruct tok as [local attr | local | v |].
  - rewrite Hnd in H.
    repeat case_match; try (injection H as <- <-; apply Q_refl).
    + inv_bind_as H as st1 Hcell. injection H as <- <-. apply Q_refl.
    + inv_bind_as H as s1 Hs1. injection H as <- <-.
      eapply onMergeCell_lift; eassumption.
    + inv_bind_as H as s1 Hs1. injection H as <- <-.
      eapply onHyperlink_lift; eassumption.
  - case_match; injection H as <- <-; apply Q_refl.
  - inv_bind_as H as s1 Hs1. injection H as <- <-.
    eapply onCharData_lift; eassumption.
  - injection H as <- <-. apply Q_refl.
Qed.

Lemma decode_lift lm toks st s st' s' :
  Forall (fun tok => isDimension tok = false) toks ->
  decode refToIndexes ParseFloat lm toks (st, s) = Ok (st', s') -> Q s s'.
Proof.
  intros Hall. revert st s. induction Hall as [|tok toks Hnd _ IH]; intros st s H.
  - injection H as <- <-. apply Q_refl.
  - cbn [decode] in H. inv_bind_as H as [st1 s1] Hstep.
    eapply Q_trans; [eapply step_lift; eassumption | eapply IH; eassumption].
Qed.

(** Any token, when [dimension] elements keep the property too. *)
Hypothesis Q_dimension : forall s attr, Q s (onDimension refToIndexes s attr).

Lemma step_lift_all lm st s tok st' s' :
  step refToIndexes ParseFloat lm (st, s) tok = Ok (st', s') -> Q s s'.
Proof.
  destruct (isDimension tok) eqn:Hd; [| apply step_lift; exact Hd].
  unfold isDimension, isStart in Hd. destruct tok as [local attr | | |];
    try discriminate Hd.
  unfold step. rewrite Hd. intros [= <- <-]. apply Q_dimension.
Qed.

Lemma decode_lift_all lm toks st s st' s' :
  decode refToIndexes ParseFloat lm toks (st, s) = Ok (st', s') -> Q s s'.
Proof.
  revert st s. induction toks as [|tok toks IH]; intros st s H.
  - injection H as <- <-. apply Q_refl.
  - cbn [decode] in H. inv_bind_as H as [st1 s1] Hstep.
    eapply Q_trans; [eapply step_lift_all; eassumption | eapply IH; eassumption].
Qed.

End Lift.

(** ** What the loop leaves alone *)

Lemma sameMeta_refl s : sameMeta s s.
Proof. repeat split. Qed.

Lemma sameMeta_trans s1 s2 s3 : sameMeta s1 s2 -> sameMeta s2 s3 -> sameMeta s1 s3.
Proof.
  intros (A1 & A2 & A3 & A4 & A5 & A6) (B1 & B2 & B3 & B4 & B5 & B6).
  repeat split; congruence.
Qed.

Lemma placeValue_sameMeta {RT : Runtime} s r c val str s' :
  placeValue s r c val str = Ok s' -> sameMeta s s'.
Proof.
  intros H. apply placeValue_Ok in H as [-> | (rs & rw & _ & _ & _ & _ & _ & ->)];
    repeat split.
Qed.

Lemma onDimension_sameMeta refToIndexes s attr :
  sameMeta s (onDimension refToIndexes s attr).
Proof. unfold onDimension. repeat case_match; repeat split. Qed.

(** The loop writes neither the error, the document, the names nor the
    cursor of the sheet. *)
Lemma decode_sameMeta {RT : Runtime} refToIndexes ParseFloat lm toks st s st' s' :
  decode refToIndexes ParseFloat lm toks (st, s) = Ok (st', s') -> sameMeta s s'.
Proof.
  apply (decode_lift_all refToIndexes ParseFloat sameMeta sameMeta_refl
           sameMeta_trans placeValue_sameMeta
           (onDimension_sameMeta refToIndexes)).
Qed.

(** ** The empty-sheet short-circuit *)


Section EmptyShortcut.

Context {RT : Runtime}.

Variable refToIndexes : string -> Z * Z.
Variable ParseFloat : string -> option float64.
Variable relsName : string -> string.





End EmptyShortcut.




(** ** The cursor *)

Lemma wrap_small z : min_int <= z <= max_int -> wrap z = z.
Proof.
  unfold wrap, min_int, max_int. intros H.
  rewrite Z.mod_small by lia. lia.
Qed.

Lemma Strings_on_row s rw :
  index (rows s) (iterRow s) = Ok rw ->
  Strings s = Ok (map (fun col => if valueIsEmpty col then "" else Sprint col)
                      (cols rw)).
Proof. intros H. unfold Strings. rewrite H. reflexivity. Qed.


Lemma nextTimes_rows n s : rows (nextTimes n s) = rows s.
Proof. induction n as [|n IH]; [reflexivity | cbn; exact IH]. Qed.

Lemma nextTimes_iterRow n s :
  min_int <= iterRow s -> iterRow s + Z.of_nat n <= max_int ->
  iterRow (nextTimes n s) = iterRow s + Z.of_nat n.
Proof.
  intros Hlo. induction n as [|n IH]; intros Hhi; [cbn; lia |].
  cbn [nextTimes]. unfold Next. cbn [fst iterRow set_iterRow].
  rewrite IH by lia. rewrite wrap_small by lia. lia.
Qed.

(** ** How [parseSheet] ends *)


Section Termination.

Context {RT : Runtime}.

Variable refToIndexes : string -> Z * Z.
Variable ParseFloat : string -> option float64.
Variable relsName : string -> string.


End Termination.



(** * Further properties of the code *)

(** ** The relationships part *)

Lemma relStep_lookup (m : gmap string string) (tok : Token) (id : string) :
  relStep m tok !! id =
    match relTarget id tok with
    | Some t => Some t
    | None => m !! id
    end.
Proof.
  unfold relStep, relTarget. destruct tok as [local attr | | |]; try reflexivity.
  destruct (String.eqb local "Relationship"
            && String.eqb (getAttr attr "TargetMode") "External"
            && String.eqb (getAttr attr "Type") hyperlinkType) eqn:E;
    cbn [andb]; [| reflexivity].
  destruct (String.eqb_spec (getAttr attr "Id") id) as [-> | Hne].
  - apply lookup_insert_eq.
  - apply lookup_insert_ne. exact Hne.
Qed.

Lemma fold_relStep_lookup (toks : list Token) (m : gmap string string)
    (id : string) :
  fold_left relStep toks m !! id =
    match last (omap (relTarget id) toks) with
    | Some t => Some t
    | None => m !! id
    end.
Proof.
  revert m. induction toks as [|tok toks IH]; intros m.
  - reflexivity.
  - cbn [fold_left]. rewrite IH, relStep_lookup. cbn [omap list_omap].
    destruct (relTarget id tok) as [t0|]; [| reflexivity].
    rewrite last_cons. destruct (last (omap (relTarget id) toks)); reflexivity.
Qed.

(** X1. The link map read from a relationships part gives, for an
    identifier, the target of the last [Relationship] element that is
    external, of the hyperlink type and has that identifier, and nothing
    when the part has no such element: other elements, internal targets and
    other relationship types leave no entry. *)
Theorem loadRels_lookup (dec : Decoder) (id : string) :
  loadRels dec !! id = last (omap (relTarget id) (pending dec)).
Proof.
  unfold loadRels. rewrite fold_relStep_lookup, lookup_empty.
  destruct (last (omap (relTarget id) (pending dec))); reflexivity.
Qed.

Section LinkMap.

Context {RT : Runtime}.

Variable refToIndexes : string -> Z * Z.
Variable ParseFloat : string -> option float64.

Lemma step_without_hyperlink lm1 lm2 ls tok :
  isStart "hyperlink" tok = false ->
  step refToIndexes ParseFloat lm1 ls tok = step refToIndexes ParseFloat lm2 ls tok.
Proof.
  unfold step, isStart. intros Hh. destruct ls as [st s].
  destruct tok as [local attr | | |]; try reflexivity.
  rewrite Hh. reflexivity.
Qed.

(** X2. The link map only matters to [hyperlink] elements: a stream that
    holds none decodes to the same outcome whatever the relationships part
    gave, so a worksheet without hyperlinks does not depend on that part. *)
Theorem decode_without_hyperlinks (lm1 lm2 : gmap string string)
    (toks : list Token) (ls : loopState * Sheet) :
  Forall (fun tok => isStart "hyperlink" tok = false) toks ->
  decode refToIndexes ParseFloat lm1 toks ls
  = decode refToIndexes ParseFloat lm2 toks ls.
Proof.
  intros Hall. revert ls. induction Hall as [|tok toks Hh _ IH]; intros ls.
  - reflexivity.
  - cbn [decode]. rewrite (step_without_hyperlink lm1 lm2 ls tok Hh).
    destruct (step refToIndexes ParseFloat lm2 ls tok) as [ls'|p]; cbn;
      [apply IH | reflexivity].
Qed.

End LinkMap.

Lemma decode_without_hyperlinks_witness :
  decode Codec.refToIndexes Sample.ParseFloat SampleLink.links
    SampleMore.noisy (initLoop, SampleMore.twoRows)
  = decode Codec.refToIndexes Sample.ParseFloat ∅
      SampleMore.noisy (initLoop, SampleMore.twoRows).
Proof.
  apply decode_without_hyperlinks. repeat constructor.
Defined.

(** ** The state of the loop *)

Lemma noNil_Ok {A} (a : A) : noNil (Ok a).
Proof. discriminate. Qed.

Lemma noNil_bind {A B} (m : outcome A) (k : A -> outcome B) :
  noNil m -> (forall a, m = Ok a -> noNil (k a)) -> noNil (m ≫= k).
Proof.
  intros Hm Hk. destruct m as [a|p]; cbn; [apply Hk; reflexivity |].
  intros [= ->]. apply Hm. reflexivity.
Qed.

Lemma index_noNil {A} (l : list A) (i : Z) : noNil (index l i).
Proof. unfold index. repeat case_match; discriminate. Qed.

Lemma placeValue_noNil {RT : Runtime} s r c val str : noNil (placeValue s r c val str).
Proof.
  unfold placeValue. case_match; [apply noNil_Ok |].
  apply noNil_bind.
  - unfold growRows. case_match; [| apply noNil_Ok].
    apply noNil_bind; [| intros; case_match; discriminate].
    unfold emptyRow. repeat case_match; discriminate.
  - intros rs _. apply noNil_bind; [| intros; apply noNil_Ok].
    unfold storeCell. apply noNil_bind; [apply index_noNil |].
    intros rw _. apply noNil_bind; [apply index_noNil | intros; apply noNil_Ok].
Qed.

Lemma forCount_noNil {St} (body : Z -> St -> outcome St) :
  (forall i s, noNil (body i s)) ->
  forall n lo s, noNil (forCount n lo body s).
Proof.
  intros Hbody. induction n as [|n IH]; intros lo s; [apply noNil_Ok |].
  cbn [forCount]. apply noNil_bind; [apply Hbody | intros; apply IH].
Qed.

Lemma forRange_noNil {St} (body : Z -> St -> outcome St) :
  (forall i s, noNil (body i s)) ->
  forall lo hi s, noNil (forRange lo hi body s).
Proof.
  intros Hbody lo hi s. unfold forRange. case_match; [apply noNil_Ok |].
  apply noNil_bind; [apply forCount_noNil, Hbody |].
  intros s' _. case_match; discriminate.
Qed.

Lemma mergeRange_noNil {RT : Runtime} sc sr ec er s : noNil (mergeRange sc sr ec er s).
Proof.
  unfold mergeRange. apply forRange_noNil. intros r t.
  apply forRange_noNil. intros c u. unfold mergeAt.
  repeat case_match; first [apply noNil_Ok | apply placeValue_noNil].
Qed.

Section LoopState.

Context {RT : Runtime}.

Variable refToIndexes : string -> Z * Z.
Variable ParseFloat : string -> option float64.
Variable relsName : string -> string.

Lemma onCell_ready s attr st :
  onCell s attr = Ok st ->
  currentCellType st <> BlankCellType /\ numFormat st <> None /\
  currentCell st = getAttr attr "r".
Proof.
  unfold onCell. intros H. inv_bind_as H as fmt Hfmt. injection H as <-. cbn.
  split; [| split; [discriminate | reflexivity]].
  destruct (String.eqb_spec (getAttr attr "t") BlankCellType) as [E | E];
    [discriminate | exact E].
Qed.

Lemma onCharData_noNil st s v :
  loopReady st -> noNil (onCharData refToIndexes ParseFloat st s v).
Proof.
  intros Hready. unfold onCharData.
  destruct (String.eqb_spec (currentCell st) "") as [E | E]; [apply noNil_Ok |].
  destruct Hready as [Hc | [_ Hfmt]]; [contradiction |].
  destruct (refToIndexes (currentCell st)) as [c r].
  destruct ((c >=? 0) && (r >=? 0)); [| apply noNil_Ok].
  repeat case_match; try apply placeValue_noNil; try apply noNil_Ok;
    try discriminate; try contradiction.
  apply noNil_bind; [apply index_noNil | intros; apply placeValue_noNil].
Qed.

Lemma step_noNil lm st s tok :
  loopReady st -> noNil (step refToIndexes ParseFloat lm (st, s) tok).
Proof.
  intros Hready. unfold step. destruct tok as [local attr | local | v |].
  - repeat case_match; try apply noNil_Ok.
    + apply noNil_bind; [| intros; apply noNil_Ok].
      unfold onCell. apply noNil_bind; [| intros; apply noNil_Ok].
      case_match; apply index_noNil.
    + apply noNil_bind; [| intros; apply noNil_Ok].
      unfold onMergeCell. destruct (mergeEnds _ _) as [[[sc sr] ec] er].
      apply mergeRange_noNil.
    + apply noNil_bind; [| intros; apply noNil_Ok].
      unfold onHyperlink. destruct (refToIndexes _) as [col row].
      apply noNil_bind; [| intros; apply placeValue_noNil].
      unfold composeLink. case_match; [| apply noNil_Ok].
      apply noNil_bind; [apply index_noNil |]. intros rw _.
      case_match; [| apply noNil_Ok].
      apply noNil_bind; [apply index_noNil |]. intros v _.
      case_match; apply noNil_Ok.
  - case_match; apply noNil_Ok.
  - apply noNil_bind; [apply onCharData_noNil, Hready | intros; apply noNil_Ok].
  - apply noNil_Ok.
Qed.

Lemma step_ready lm st s tok st' s' :
  loopReady st ->
  step refToIndexes ParseFloat lm (st, s) tok = Ok (st', s') -> loopReady st'.
Proof.
  intros Hready. unfold step. intros H.
  destruct tok as [local attr | local | v |].
  - repeat case_match; try (injection H as <- <-; exact Hready).
    + inv_bind_as H as st1 Hcell. injection H as <- <-.
      apply onCell_ready in Hcell as (Ht & Hf & _). right. auto.
    + inv_bind_as H as s1 Hs1. injection H as <- <-. exact Hready.
    + inv_bind_as H as s1 Hs1. injection H as <- <-. exact Hready.
  - case_match; injection H as <- <-; [left; reflexivity | exact Hready].
  - inv_bind_as H as s1 Hs1. injection H as <- <-. exact Hready.
  - injection H as <- <-. exact Hready.
Qed.

Lemma decode_noNil lm toks st s :
  loopReady st -> noNil (decode refToIndexes ParseFloat lm toks (st, s)).
Proof.
  revert st s. induction toks as [|tok toks IH]; intros st s Hready.
  - apply noNil_Ok.
  - cbn [decode]. apply noNil_bind; [apply step_noNil, Hready |].
    intros [st1 s1] Hstep. apply IH. eapply step_ready; eassumption.
Qed.

(** X3. [parseSheet] never calls the format function while it is still
    nil: character data reaches the number case only inside a cell, and the
    cell's start tag has set the format (or has panicked on the format
    table) before. So a panic of [parseSheet] is never a nil dereference. *)
Theorem parseSheet_never_nil (s : Sheet) :
  parseSheet refToIndexes ParseFloat relsName s <> Panic NilDereference.
Proof.
  unfold parseSheet. destruct (openXML (d s) (docname s)) as [dec | e];
    [| discriminate].
  apply noNil_bind.
  - apply decode_noNil. left. reflexivity.
  - intros [st' s'] _. discriminate.
Qed.

End LoopState.

(** ** The start tag of a cell *)

(** X4. The start tag of a cell panics exactly when the format table is
    empty or the style index read from [s] is negative. Otherwise the cell
    reference is the [r] attribute, an absent type becomes the number type,
    and the format is the table entry at the style index, or entry 0 when
    the index is beyond the table (an absent or unreadable [s] reads as
    0). *)
Theorem onCell_returns (s : Sheet) (attr : list Attr) :
  let sid := (ParseInt (getAttr attr "s")).1 in
  (returns (onCell s attr) <-> 0 <= sid /\ xfs (d s) <> []) /\
  (forall st, onCell s attr = Ok st ->
     currentCell st = getAttr attr "r" /\
     currentCellType st
       = (if String.eqb (getAttr attr "t") "" then NumberCellType
          else getAttr attr "t") /\
     numFormat st
       = xfs (d s) !! (if sid <? len (xfs (d s)) then Z.to_nat sid else 0%nat)).
Proof.
  intros sid. unfold onCell. fold sid. split.
  - split.
    + intros [st H]. inv_bind_as H as fmt Hfmt.
      destruct (Z.gtb_spec (len (xfs (d s))) sid) as [Hlt | Hge].
      * apply index_Ok in Hfmt as [H0 Hl]. split; [exact H0 |].
        intros E. rewrite E in Hl. discriminate Hl.
      * apply index_Ok in Hfmt as [_ Hl]. split.
        -- pose proof (Nat2Z.is_nonneg (length (xfs (d s)))). unfold len in Hge. lia.
        -- intros E. rewrite E in Hl. discriminate Hl.
    + intros [H0 Hne].
      assert (Hpos : 0 < len (xfs (d s))).
      { unfold len. destruct (xfs (d s)); [contradiction | cbn; lia]. }
      destruct (Z.gtb_spec (len (xfs (d s))) sid) as [Hlt | Hge].
      * destruct (index_in_range (xfs (d s)) sid) as (fmt & Hfmt & _); [lia |].
        rewrite Hfmt. eexists. reflexivity.
      * destruct (index_in_range (xfs (d s)) 0) as (fmt & Hfmt & _); [lia |].
        rewrite Hfmt. eexists. reflexivity.
  - intros st H. inv_bind_as H as fmt Hfmt. injection H as <-. cbn.
    split; [reflexivity |]. split; [reflexivity |].
    destruct (Z.gtb_spec (len (xfs (d s))) sid) as [Hlt | Hge].
    + apply index_Ok in Hfmt as [H0 Hl].
      destruct (Z.ltb_spec sid (len (xfs (d s)))); [| lia]. symmetry. exact Hl.
    + apply index_Ok in Hfmt as [_ Hl].
      destruct (Z.ltb_spec sid (len (xfs (d s)))); [lia |]. symmetry. exact Hl.
Qed.

(** ** Placements that are dropped *)

Lemma placeValue_negative_bounds {RT : Runtime} s r c val str s' :
  maxCol s < 0 \/ maxRow s < 0 ->
  placeValue s r c val str = Ok s' -> s' = s.
Proof.
  intros Hneg H.
  apply placeValue_Ok in H as [-> | (rs & rw & _ & Hr & Hc & _)];
    [reflexivity | lia].
Qed.

Lemma mergeRange_negative_bounds {RT : Runtime} sc sr ec er s s' :
  maxCol s < 0 \/ maxRow s < 0 ->
  mergeRange sc sr ec er s = Ok s' -> s' = s.
Proof.
  intros Hneg H.
  assert (Hrefl : forall t : Sheet, maxCol t < 0 \/ maxRow t < 0 -> t = t)
    by reflexivity.
  assert (Htrans : forall s1 s2 s3 : Sheet,
            (maxCol s1 < 0 \/ maxRow s1 < 0 -> s2 = s1) ->
            (maxCol s2 < 0 \/ maxRow s2 < 0 -> s3 = s2) ->
            maxCol s1 < 0 \/ maxRow s1 < 0 -> s3 = s1).
  { intros s1 s2 s3 H12 H23 Hn. pose proof (H12 Hn) as ->. apply H23, Hn. }
  refine (forRange_preserve
            (fun t t' => maxCol t < 0 \/ maxRow t < 0 -> t' = t)
            _ Hrefl Htrans _ _ _ _ _ H Hneg).
  intros r t t'.
  apply (forRange_preserve
           (fun t t' => maxCol t < 0 \/ maxRow t < 0 -> t' = t)
           _ Hrefl Htrans).
  intros c u u' Hu Hn. unfold mergeAt in Hu.
  repeat case_match; try (injection Hu as <-; reflexivity);
    eapply placeValue_negative_bounds; eassumption.
Qed.

Section Dropped.

Context {RT : Runtime}.

Variable refToIndexes : string -> Z * Z.
Variable ParseFloat : string -> option float64.

Lemma step_negative_bounds lm st s tok st' s' :
  isDimension tok = false ->
  maxCol s < 0 \/ maxRow s < 0 ->
  step refToIndexes ParseFloat lm (st, s) tok = Ok (st', s') -> s' = s.
Proof.
  unfold step, isDimension, isStart. intros Hnd Hneg H.
  destruct tok as [local attr | local | v |].
  - rewrite Hnd in H.
    repeat case_match; try (injection H as <- <-; reflexivity).
    + inv_bind_as H as st1 Hcell. injection H as <- <-. reflexivity.
    + inv_bind_as H as s1 Hs1. injection H as <- <-.
      unfold onMergeCell in Hs1.
      destruct (mergeEnds _ _) as [[[sc sr] ec] er].
      eapply mergeRange_negative_bounds; eassumption.
    + inv_bind_as H as s1 Hs1. injection H as <- <-.
      unfold onHyperlink in Hs1. destruct (refToIndexes _) as [col row].
      inv_bind_as Hs1 as link Hlink.
      eapply placeValue_negative_bounds; eassumption.
  - case_match; injection H as <- <-; reflexivity.
  - inv_bind_as H as s1 Hs1. injection H as <- <-.
    unfold onCharData in Hs1.
    repeat case_match; try discriminate; try (injection Hs1 as <-; reflexivity);
      try (eapply placeValue_negative_bounds; eassumption).
    inv_bind_as Hs1 as str Hstr. eapply placeValue_negative_bounds; eassumption.
  - injection H as <- <-. reflexivity.
Qed.

(** X5. Once a declared maximum is negative (the bounds a [dimension]
    element with a malformed reference leaves), nothing is placed any more:
    whatever cells, merge regions and hyperlinks follow, as long as no other
    [dimension] element does, a decode that returns leaves the sheet exactly
    as it was. *)
Theorem decode_negative_bounds (lm : gmap string string) (toks : list Token)
    (st : loopState) (s : Sheet) (st' : loopState) (s' : Sheet) :
  maxCol s < 0 \/ maxRow s < 0 ->
  Forall (fun tok => isDimension tok = false) toks ->
  decode refToIndexes ParseFloat lm toks (st, s) = Ok (st', s') ->
  s' = s.
Proof.
  intros Hneg Hall. revert st s Hneg.
  induction Hall as [|tok toks Hnd _ IH]; intros st s Hneg H.
  - injection H as <- <-. reflexivity.
  - cbn [decode] in H. inv_bind_as H as [st1 s1] Hstep.
    pose proof (step_negative_bounds _ _ _ _ _ _ Hnd Hneg Hstep) as ->.
    apply (IH _ _ Hneg H).
Qed.

(** X6. Character data of a cell whose reference is malformed or lies
    beyond the declared bounds never changes the sheet: when the case
    returns, it returns the sheet it was given. *)
Theorem charData_beyond_bounds (st : loopState) (s : Sheet) (v : string)
    (c r : Z) (s' : Sheet) :
  refToIndexes (currentCell st) = (c, r) ->
  c < 0 \/ r < 0 \/ c > maxCol s \/ r > maxRow s ->
  onCharData refToIndexes ParseFloat st s v = Ok s' ->
  s' = s.
Proof.
  intros Href Hout. unfold onCharData. rewrite Href.
  destruct (String.eqb (currentCell st) ""); [congruence |].
  destruct (Z.geb_spec c 0); cbn [andb]; [| congruence].
  destruct (Z.geb_spec r 0); [| congruence].
  assert (Hdrop : forall val str, placeValue s r c val str = Ok s).
  { intros val str. apply placeValue_invalid. lia. }
  intros Hrun.
  repeat case_match; try discriminate; try congruence;
    try (rewrite Hdrop in Hrun; congruence).
  inv_bind_as Hrun as str Hstr. rewrite Hdrop in Hrun. congruence.
Qed.

End Dropped.

Lemma decode_negative_bounds_witness :
  exists st',
    decode Codec.refToIndexes Sample.ParseFloat SampleLink.links
      (tail SampleMore.badDimension)
      (initLoop, onDimension Codec.refToIndexes SampleMore.twoRows
                   [mkAttr "ref" "#REF!"])
    = Ok (st', onDimension Codec.refToIndexes SampleMore.twoRows
                 [mkAttr "ref" "#REF!"]).
Proof.
  destruct (decode Codec.refToIndexes Sample.ParseFloat SampleLink.links
              (tail SampleMore.badDimension)
              (initLoop, onDimension Codec.refToIndexes SampleMore.twoRows
                           [mkAttr "ref" "#REF!"]))
    as [[st' s']|p] eqn:E; [| vm_compute in E; discriminate E].
  exists st'. f_equal. f_equal.
  refine (decode_negative_bounds Codec.refToIndexes Sample.ParseFloat
            _ _ _ _ _ _ _ _ E).
  - left. vm_compute. reflexivity.
  - repeat constructor.
Defined.

Lemma charData_beyond_bounds_witness :
  onCharData Codec.refToIndexes Sample.ParseFloat
    (mkLoop InlineStringCellType "C3" (Some Sample.general))
    SampleMore.twoRows "stray" = Ok SampleMore.twoRows.
Proof.
  destruct (onCharData Codec.refToIndexes Sample.ParseFloat
              (mkLoop InlineStringCellType "C3" (Some Sample.general))
              SampleMore.twoRows "stray") as [s'|p] eqn:E;
    [| vm_compute in E; discriminate E].
  f_equal.
  apply (charData_beyond_bounds Codec.refToIndexes Sample.ParseFloat
           (mkLoop InlineStringCellType "C3" (Some Sample.general))
           SampleMore.twoRows "stray" 2 2 s' eq_refl);
    [right; right; left; cbn; lia | exact E].
Defined.

(** ** What a placement does to the grid *)

Lemma padRows_length s n : length (padRows s n) = Nat.max (length (rows s)) n.
Proof. unfold padRows. rewrite length_app, length_replicate. lia. Qed.

Lemma padRows_fresh s n i rw :
  (length (rows s) <= i)%nat -> padRows s n !! i = Some rw ->
  rw = mkRow (replicate (Z.to_nat (maxCol s + 1)) zeroValue).
Proof.
  intros Hi. unfold padRows. rewrite lookup_app_r by exact Hi.
  intros H. apply lookup_replicate in H as [-> _]. reflexivity.
Qed.

Lemma padRows_old s n i : (i < length (rows s))%nat -> padRows s n !! i = rows s !! i.
Proof. intros Hi. unfold padRows. apply lookup_app_l. exact Hi. Qed.

Lemma emptyRow_run {RT : Runtime} s :
  0 <= maxCol s + 1 <= maxValues -> maxCol s <> max_int ->
  emptyRow s = Ok (mkRow (replicate (Z.to_nat (maxCol s + 1)) zeroValue)).
Proof.
  intros H0 Hne. unfold emptyRow.
  destruct (Z.eqb_spec (maxCol s) max_int); [contradiction |].
  destruct (Z.ltb_spec (maxCol s + 1) 0); [lia |].
  destruct (Z.gtb_spec (maxCol s + 1) maxValues); [lia | reflexivity].
Qed.

(** The append loop, when it has rows to add: it returns exactly under
    [canGrow], and returns the padded rows. *)
Lemma growRows_padRows {RT : Runtime} s r rs :
  0 <= r -> growRows s r = Ok rs ->
  rs = padRows s (Z.to_nat r + 1) /\ (len (rows s) <= r -> canGrow s r).
Proof.
  intros H0r. unfold growRows.
  destruct (Z.leb_spec (len (rows s)) r) as [Hle | Hgt].
  - intros Hgrow. inv_bind_as Hgrow as e He.
    assert (Hret : returns (emptyRow s)) by (eexists; exact He).
    apply emptyRow_returns in Hret as [Hm0 Hmne].
    apply emptyRow_Ok in He as (-> & _ & _).
    destruct (Z.gtb_spec (r + 1) (Z.min maxRows max_int));
      [discriminate Hgrow |].
    injection Hgrow as <-. split.
    + unfold padRows, len in *. do 2 f_equal. lia.
    + intros _. unfold canGrow. lia.
  - intros [= <-]. split; [| lia]. unfold padRows, len in *.
    replace (Z.to_nat r + 1 - length (rows s))%nat with 0%nat by lia.
    cbn. rewrite app_nil_r. reflexivity.
Qed.

Lemma growRows_run {RT : Runtime} s r :
  0 <= r -> (len (rows s) <= r -> canGrow s r) ->
  growRows s r = Ok (padRows s (Z.to_nat r + 1)).
Proof.
  intros H0r Hgrow. unfold growRows.
  destruct (Z.leb_spec (len (rows s)) r) as [Hle | Hgt].
  - destruct (Hgrow Hle) as [[Hm0 Hmne] Hr].
    rewrite emptyRow_run by assumption. cbn.
    destruct (Z.gtb_spec (r + 1) (Z.min maxRows max_int)); [lia |].
    unfold padRows. do 3 f_equal. lia.
  - f_equal. unfold padRows, len in *.
    replace (Z.to_nat r + 1 - length (rows s))%nat with 0%nat by lia.
    cbn. rewrite app_nil_r. reflexivity.
Qed.

(** A placement inside the bounds that returns: the rows are padded with
    empty rows up to the target row, and one cell of that row is stored. *)
Lemma placeValue_inside {RT : Runtime} s r c val str s' :
  placeValue s r c val str = Ok s' -> r <= maxRow s -> c <= maxCol s ->
  0 <= r /\ 0 <= c /\
  (len (rows s) <= r -> canGrow s r) /\
  exists rw,
    padRows s (Z.to_nat r + 1) !! Z.to_nat r = Some rw /\
    (Z.to_nat c < length (cols rw))%nat /\
    s' = set_rows s
           (<[Z.to_nat r := mkRow (<[Z.to_nat c := NewValue val str]> (cols rw))]>
              (padRows s (Z.to_nat r + 1)))
           false.
Proof.
  unfold placeValue. intros H Hr Hc.
  destruct (Z.gtb_spec c (maxCol s)); [lia |].
  destruct (Z.gtb_spec r (maxRow s)); [lia |]. cbn [orb] in H.
  inv_bind_as H as rs Hgrow. inv_bind_as H as rs' Hstore. injection H as <-.
  apply storeCell_Ok in Hstore as (rw & H0r & H0c & Hrw & Hclt & ->).
  apply growRows_padRows in Hgrow as [-> Hempty]; [| exact H0r].
  split; [exact H0r |]. split; [exact H0c |]. split; [exact Hempty |].
  exists rw. auto.
Qed.

(** The converse: when the padded grid has the cell, the placement returns
    that sheet. *)
Lemma placeValue_inside_run {RT : Runtime} s r c val str rw :
  0 <= r <= maxRow s -> 0 <= c <= maxCol s ->
  (len (rows s) <= r -> canGrow s r) ->
  padRows s (Z.to_nat r + 1) !! Z.to_nat r = Some rw ->
  (Z.to_nat c < length (cols rw))%nat ->
  placeValue s r c val str
  = Ok (set_rows s
          (<[Z.to_nat r := mkRow (<[Z.to_nat c := NewValue val str]> (cols rw))]>
             (padRows s (Z.to_nat r + 1)))
          false).
Proof.
  intros Hr Hc Hempty Hrw Hclt. unfold placeValue.
  destruct (Z.gtb_spec c (maxCol s)); [lia |].
  destruct (Z.gtb_spec r (maxRow s)); [lia |]. cbn [orb].
  rewrite (growRows_run s r (proj1 Hr) Hempty). cbn. unfold storeCell.
  rewrite (bind_Ok_l (index _ r) _ rw) by (apply index_Ok; split; [lia | done]).
  destruct (lookup_lt_is_Some_2 (cols rw) _ Hclt) as [v0 Hv0].
  rewrite (bind_Ok_l (index (cols rw) c) _ v0) by (apply index_Ok; split; [lia | done]).
  reflexivity.
Qed.

(** X7. A placement inside the bounds that returns grows the grid just as
    far as its row: the grid then has [max(len(rows), rowIndex + 1)] rows,
    and every cell of a row it added, the target cell apart, is the zero
    value. *)
Theorem placeValue_growth {RT : Runtime} (s : Sheet) (r c : Z) (val : Any) (str : string)
    (s' : Sheet) :
  placeValue s r c val str = Ok s' -> r <= maxRow s -> c <= maxCol s ->
  len (rows s') = Z.max (len (rows s)) (r + 1) /\
  forall i j, len (rows s) <= i <= r -> 0 <= j <= maxCol s ->
              (i, j) <> (r, c) -> cellAt s' i j = Some zeroValue.
Proof.
  intros H Hr Hc.
  destruct (placeValue_inside _ _ _ _ _ _ H Hr Hc)
    as (H0r & H0c & Hempty & rw & Hrw & Hclt & ->).
  cbn [rows set_rows]. split.
  - unfold len. rewrite length_insert, padRows_length. lia.
  - intros i j Hi Hj Hne.
    assert (Hlen : 0 <= len (rows s)) by (unfold len; lia).
    destruct (Hempty ltac:(lia)) as [[Hm0 Hmne] _].
    rewrite cellAt_lookup by lia. cbn [rows set_rows].
    assert (Hfresh : forall k rwk, (length (rows s) <= k)%nat ->
              padRows s (Z.to_nat r + 1) !! k = Some rwk ->
              forall j', 0 <= j' <= maxCol s -> cols rwk !! Z.to_nat j' = Some zeroValue).
    { intros k rwk Hk Hlk j' Hj'. rewrite (padRows_fresh _ _ _ _ Hk Hlk). cbn.
      apply lookup_replicate_2. lia. }
    destruct (decide (Z.to_nat i = Z.to_nat r)) as [Heq | Hnr].
    + rewrite Heq. rewrite list_lookup_insert_eq
        by (eapply lookup_lt_Some; eassumption). cbn.
      rewrite list_lookup_insert_ne.
      * apply (Hfresh (Z.to_nat r) rw); [unfold len in Hi; lia | exact Hrw | exact Hj].
      * intros E. apply Hne. f_equal; lia.
    + rewrite list_lookup_insert_ne by congruence.
      destruct (lookup_lt_is_Some_2 (padRows s (Z.to_nat r + 1)) (Z.to_nat i))
        as [rwi Hrwi]; [rewrite padRows_length; lia |].
      rewrite Hrwi. cbn.
      apply (Hfresh (Z.to_nat i) rwi); [unfold len in Hi; lia | exact Hrwi | exact Hj].
Qed.

Lemma placeValue_growth_witness :
  exists s',
    placeValue SampleLink.gridExample 1 0 (AString "x") "x" = Ok s' /\
    len (rows s') = 2 /\ cellAt s' 1 1 = Some zeroValue.
Proof.
  destruct (placeValue SampleLink.gridExample 1 0 (AString "x") "x")
    as [s'|p] eqn:E; [| vm_compute in E; discriminate E].
  exists s'. split; [reflexivity |].
  destruct (placeValue_growth _ _ _ _ _ _ E) as [Hlen Hzero];
    [cbn; lia | cbn; lia |].
  split; [exact Hlen |].
  apply Hzero; [unfold len; cbn; lia | cbn; lia | intros [=]].
Defined.

(** X8. Writing a cell twice keeps the last write: a placement at the cell
    a returned placement has just written gives the same outcome as that
    placement alone on the sheet before (so of the character data a cell
    receives, only the last piece is kept). *)
Theorem placeValue_overwrite {RT : Runtime} (s : Sheet) (r c : Z) (val1 : Any)
    (str1 : string) (s1 : Sheet) (val2 : Any) (str2 : string) :
  placeValue s r c val1 str1 = Ok s1 ->
  placeValue s1 r c val2 str2 = placeValue s r c val2 str2.
Proof.
  intros H1.
  destruct (Z_le_gt_dec r (maxRow s)) as [Hr | Hr];
    [| destruct (placeValue_effect _ _ _ _ _ _ H1) as (_ & Hout & _);
       rewrite (Hout ltac:(lia)); reflexivity].
  destruct (Z_le_gt_dec c (maxCol s)) as [Hc | Hc];
    [| destruct (placeValue_effect _ _ _ _ _ _ H1) as (_ & Hout & _);
       rewrite (Hout ltac:(lia)); reflexivity].
  destruct (placeValue_inside _ _ _ _ _ _ H1 Hr Hc)
    as (H0r & H0c & Hempty & rw & Hrw & Hclt & ->).
  assert (Hlt : (Z.to_nat r < length (padRows s (Z.to_nat r + 1)))%nat)
    by (eapply lookup_lt_Some; eassumption).
  rewrite (placeValue_inside_run s r c val2 str2 rw) by (auto; lia).
  set (V1 := NewValue val1 str1). set (V2 := NewValue val2 str2).
  set (pad := padRows s (Z.to_nat r + 1)) in *.
  set (s1 := set_rows s (<[Z.to_nat r := mkRow (<[Z.to_nat c := V1]> (cols rw))]> pad) false).
  assert (Hpad1 : padRows s1 (Z.to_nat r + 1) = rows s1).
  { unfold padRows. replace (Z.to_nat r + 1 - length (rows s1))%nat with 0%nat.
    - cbn [replicate]. apply app_nil_r.
    - subst s1. cbn [rows set_rows]. rewrite length_insert. lia. }
  rewrite (placeValue_inside_run s1 r c val2 str2
             (mkRow (<[Z.to_nat c := V1]> (cols rw)))).
  - rewrite Hpad1. subst s1. cbn [rows set_rows cols].
    rewrite list_insert_insert_eq. rewrite list_insert_insert_eq. reflexivity.
  - cbn. lia.
  - cbn. lia.
  - subst s1. cbn [rows set_rows maxCol]. unfold len. rewrite length_insert.
    intros Hle. lia.
  - rewrite Hpad1. subst s1. cbn [rows set_rows].
    apply list_lookup_insert_eq. exact Hlt.
  - cbn [cols]. rewrite length_insert. exact Hclt.
Qed.

Lemma placeValue_overwrite_witness :
  exists s1,
    placeValue SampleLink.gridExample 0 0 (AString "=SUM(B1)") "=SUM(B1)" = Ok s1 /\
    placeValue s1 0 0 (AString "3") "3"
    = placeValue SampleLink.gridExample 0 0 (AString "3") "3".
Proof.
  destruct (placeValue SampleLink.gridExample 0 0 (AString "=SUM(B1)") "=SUM(B1)")
    as [s1|p] eqn:E; [| vm_compute in E; discriminate E].
  exists s1. split; [reflexivity |].
  exact (placeValue_overwrite _ _ _ _ _ _ _ _ E).
Defined.

(** ** Placements in either order *)

Lemma insert_as_alter {A} (f : A -> A) (l : list A) (i : nat) (x : A) :
  l !! i = Some x -> <[i := f x]> l = alter f i l.
Proof.
  revert i. induction l as [|y l IH]; intros [|i] H; try discriminate H.
  - injection H as ->. reflexivity.
  - cbn. f_equal. apply IH. exact H.
Qed.

Lemma placeValue_placed {RT : Runtime} s r c val str s' :
  placeValue s r c val str = Ok s' -> r <= maxRow s -> c <= maxCol s ->
  canPlace s r c /\ s' = placed s r c (NewValue val str).
Proof.
  intros H Hr Hc.
  destruct (placeValue_inside _ _ _ _ _ _ H Hr Hc)
    as (H0r & H0c & Hempty & rw & Hrw & Hclt & ->).
  split.
  - unfold canPlace. split; [lia |]. split; [lia |]. split; [exact Hempty |].
    exists rw. auto.
  - unfold placed. f_equal.
    apply (insert_as_alter (setCol (Z.to_nat c) (NewValue val str))). exact Hrw.
Qed.

Lemma placeValue_placed_run {RT : Runtime} s r c val str :
  canPlace s r c -> placeValue s r c val str = Ok (placed s r c (NewValue val str)).
Proof.
  intros (Hr & Hc & Hempty & rw & Hrw & Hclt).
  rewrite (placeValue_inside_run s r c val str rw) by assumption.
  unfold placed. do 2 f_equal.
  apply (insert_as_alter (setCol (Z.to_nat c) (NewValue val str))). exact Hrw.
Qed.

Lemma padRows_lookup_mono s n m i :
  (i < length (padRows s n))%nat -> (n <= m)%nat ->
  padRows s m !! i = padRows s n !! i.
Proof.
  intros Hi Hnm. rewrite padRows_length in Hi. unfold padRows.
  destruct (decide (i < length (rows s))%nat) as [Hlt | Hge].
  - rewrite !lookup_app_l by exact Hlt. reflexivity.
  - rewrite !lookup_app_r by lia. rewrite !lookup_replicate_2 by lia. reflexivity.
Qed.

(** Padding after a placement is the placement after padding. *)
Lemma placed_padRows s r c v n :
  padRows (placed s r c v) n
  = alter (setCol (Z.to_nat c) v) (Z.to_nat r)
      (padRows s (Nat.max (Z.to_nat r + 1) n)).
Proof.
  unfold padRows at 1. unfold placed. cbn [rows maxCol set_rows].
  rewrite length_alter, padRows_length.
  rewrite <- alter_app_l by (rewrite padRows_length; lia).
  f_equal. unfold padRows. rewrite <- app_assoc, <- replicate_add.
  do 2 f_equal. lia.
Qed.

Lemma placed_placed s r c v r' c' v' :
  placed (placed s r c v) r' c' v'
  = set_rows s
      (alter (setCol (Z.to_nat c') v') (Z.to_nat r')
         (alter (setCol (Z.to_nat c) v) (Z.to_nat r)
            (padRows s (Nat.max (Z.to_nat r + 1) (Z.to_nat r' + 1)))))
      false.
Proof. unfold placed at 1. rewrite placed_padRows. reflexivity. Qed.

Lemma setCol_length j v rw : length (cols (setCol j v rw)) = length (cols rw).
Proof. unfold setCol. cbn. apply length_insert. Qed.

(** If the second of two placements can be made after the first, it can
    be made before it. *)
Lemma canPlace_before {RT : Runtime} s r1 c1 v1 r2 c2 :
  canPlace s r1 c1 -> canPlace (placed s r1 c1 v1) r2 c2 -> canPlace s r2 c2.
Proof.
  intros (Hr1 & Hc1 & He1 & rw1 & Hrw1 & Hcl1) (Hr2 & Hc2 & He2 & rw2 & Hrw2 & Hcl2).
  cbn [placed set_rows maxRow maxCol rows] in Hr2, Hc2, He2.
  unfold canPlace. split; [exact Hr2 |]. split; [exact Hc2 |]. split.
  - intros Hle. unfold len in *. rewrite length_alter, padRows_length in He2.
    destruct (Z_le_gt_dec (Z.of_nat (Nat.max (length (rows s)) (Z.to_nat r1 + 1))) r2)
      as [Hle2 | Hgt2]; [apply He2; exact Hle2 |].
    destruct He1 as [Hcol Hrow]; [lia |]. split; [exact Hcol | lia].
  - rewrite placed_padRows in Hrw2.
    assert (Hlt : (Z.to_nat r2 < length (padRows s (Z.to_nat r2 + 1)))%nat)
      by (rewrite padRows_length; lia).
    destruct (lookup_lt_is_Some_2 _ _ Hlt) as [rw Hrw]. exists rw.
    split; [exact Hrw |].
    assert (Hsame : padRows s (Nat.max (Z.to_nat r1 + 1) (Z.to_nat r2 + 1))
                      !! Z.to_nat r2 = Some rw).
    { rewrite (padRows_lookup_mono s (Z.to_nat r2 + 1) _ (Z.to_nat r2) Hlt) by lia.
      exact Hrw. }
    set (P := padRows s (Nat.max (Z.to_nat r1 + 1) (Z.to_nat r2 + 1))) in *.
    rewrite list_lookup_alter in Hrw2.
    destruct (decide (Z.to_nat r1 = Z.to_nat r2)) as [Heq | Hne].
    + rewrite Heq, Hsame in Hrw2. cbn in Hrw2. injection Hrw2 as <-.
      rewrite setCol_length in Hcl2. exact Hcl2.
    + rewrite Hsame in Hrw2. injection Hrw2 as <-. exact Hcl2.
Qed.

(** And the first can then be made after the second. *)
Lemma canPlace_after {RT : Runtime} s r1 c1 r2 c2 v2 :
  canPlace s r1 c1 -> canPlace s r2 c2 -> canPlace (placed s r2 c2 v2) r1 c1.
Proof.
  intros (Hr1 & Hc1 & He1 & rw1 & Hrw1 & Hcl1) (Hr2 & Hc2 & He2 & rw2 & Hrw2 & Hcl2).
  unfold canPlace. cbn [placed set_rows maxRow maxCol rows].
  split; [exact Hr1 |]. split; [exact Hc1 |]. split.
  - intros Hle. unfold len in *. rewrite length_alter, padRows_length in Hle.
    apply He1. lia.
  - rewrite placed_padRows.
    assert (Hlt : (Z.to_nat r1 < length (padRows s (Z.to_nat r1 + 1)))%nat)
      by (rewrite padRows_length; lia).
    assert (Hsame : padRows s (Nat.max (Z.to_nat r2 + 1) (Z.to_nat r1 + 1))
                      !! Z.to_nat r1 = Some rw1).
    { rewrite (padRows_lookup_mono s (Z.to_nat r1 + 1) _ (Z.to_nat r1) Hlt) by lia.
      exact Hrw1. }
    set (P := padRows s (Nat.max (Z.to_nat r2 + 1) (Z.to_nat r1 + 1))) in *.
    rewrite list_lookup_alter.
    destruct (decide (Z.to_nat r2 = Z.to_nat r1)) as [Heq | Hne].
    + rewrite Heq, Hsame. cbn. eexists. split; [reflexivity |].
      rewrite setCol_length. exact Hcl1.
    + rewrite Hsame. exists rw1. auto.
Qed.

Lemma placed_commute s r1 c1 v1 r2 c2 v2 :
  0 <= r1 -> 0 <= c1 -> 0 <= r2 -> 0 <= c2 -> (r1, c1) <> (r2, c2) ->
  placed (placed s r1 c1 v1) r2 c2 v2 = placed (placed s r2 c2 v2) r1 c1 v1.
Proof.
  intros H1 H2 H3 H4 Hne. rewrite !placed_placed.
  rewrite (Nat.max_comm (Z.to_nat r2 + 1)). f_equal.
  destruct (decide (Z.to_nat r2 = Z.to_nat r1)) as [Heq | Hnr].
  - rewrite Heq, !list_alter_alter_eq. apply list_alter_ext; [| reflexivity].
    intros rw _. unfold setCol. cbn. f_equal.
    apply list_insert_insert_ne. intros Hc. apply Hne. f_equal; lia.
  - apply list_alter_alter_ne. exact Hnr.
Qed.

(** X9. Two placements at different cells can be made in either order:
    when the first and then the second return, so do the second and then
    the first, and they leave the same sheet. *)
Theorem placeValue_commute {RT : Runtime} (s : Sheet) (r1 c1 : Z) (val1 : Any)
    (str1 : string) (r2 c2 : Z) (val2 : Any) (str2 : string)
    (s1 s12 : Sheet) :
  (r1, c1) <> (r2, c2) ->
  placeValue s r1 c1 val1 str1 = Ok s1 ->
  placeValue s1 r2 c2 val2 str2 = Ok s12 ->
  exists s2,
    placeValue s r2 c2 val2 str2 = Ok s2 /\
    placeValue s2 r1 c1 val1 str1 = Ok s12.
Proof.
  intros Hne H1 H2.
  destruct (placeValue_sameBounds _ _ _ _ _ _ H1) as [(_ & HR1 & _ & HC1) _].
  destruct (placeValue_sameBounds _ _ _ _ _ _ H2) as [(_ & HR2 & _ & HC2) _].
  destruct (Z_le_gt_dec r1 (maxRow s)) as [Hr1 | Hr1];
    [destruct (Z_le_gt_dec c1 (maxCol s)) as [Hc1 | Hc1] |].
  2,3: destruct (placeValue_effect _ _ _ _ _ _ H1) as (_ & Hout & _);
       pose proof (Hout ltac:(lia)) as ->; exists s12; split; [exact H2 |];
       apply placeValue_invalid; lia.
  destruct (Z_le_gt_dec r2 (maxRow s)) as [Hr2 | Hr2];
    [destruct (Z_le_gt_dec c2 (maxCol s)) as [Hc2 | Hc2] |].
  2,3: destruct (placeValue_effect _ _ _ _ _ _ H2) as (_ & Hout & _);
       pose proof (Hout ltac:(lia)) as ->; exists s; split;
       [apply placeValue_invalid; lia | exact H1].
  destruct (placeValue_placed _ _ _ _ _ _ H1 Hr1 Hc1) as [Hcan1 ->].
  destruct (placeValue_placed _ _ _ _ _ _ H2) as [Hcan2 ->]; [lia | lia |].
  pose proof (canPlace_before _ _ _ _ _ _ Hcan1 Hcan2) as Hcan2'.
  exists (placed s r2 c2 (NewValue val2 str2)). split.
  - apply placeValue_placed_run. exact Hcan2'.
  - rewrite placeValue_placed_run by (apply canPlace_after; assumption).
    f_equal. destruct Hcan1 as (? & ? & _), Hcan2' as (? & ? & _).
    symmetry. apply placed_commute; try lia. exact Hne.
Qed.

Lemma placeValue_commute_witness :
  exists s1 s2 s12,
    placeValue SampleLink.gridExample 1 1 (AString "x") "x" = Ok s1 /\
    placeValue s1 0 1 (ABool true) "1" = Ok s12 /\
    placeValue SampleLink.gridExample 0 1 (ABool true) "1" = Ok s2 /\
    placeValue s2 1 1 (AString "x") "x" = Ok s12.
Proof.
  destruct (placeValue SampleLink.gridExample 1 1 (AString "x") "x")
    as [s1|p] eqn:E1; [| vm_compute in E1; discriminate E1].
  destruct (placeValue s1 0 1 (ABool true) "1") as [s12|p] eqn:E2.
  2:{ vm_compute in E1. injection E1 as <-. vm_compute in E2. discriminate E2. }
  assert (Hne : (1, 1) <> (0, 1)) by discriminate.
  destruct (placeValue_commute _ _ _ _ _ _ _ _ _ _ _ Hne E1 E2)
    as (s2 & Ha & Hb).
  exists s1, s2, s12. auto.
Defined.

(** ** The grid stays within the declared rows *)

Lemma placeValue_rowBound {RT : Runtime} s r c val str s' :
  placeValue s r c val str = Ok s' ->
  maxRow s' = maxRow s /\ (rowBound s -> rowBound s').
Proof.
  intros H. destruct (placeValue_sameBounds _ _ _ _ _ _ H) as [(_ & HR & _) _].
  split; [exact HR |]. intros Hb. unfold rowBound in *. rewrite HR.
  destruct (Z_le_gt_dec r (maxRow s)) as [Hr | Hr];
    [destruct (Z_le_gt_dec c (maxCol s)) as [Hc | Hc] |].
  2,3: destruct (placeValue_effect _ _ _ _ _ _ H) as (_ & Hout & _);
       rewrite (Hout ltac:(lia)); exact Hb.
  destruct (placeValue_inside _ _ _ _ _ _ H Hr Hc) as (H0r & _ & _ & rw & _ & _ & ->).
  cbn [rows set_rows]. unfold len in *. rewrite length_insert, padRows_length. lia.
Qed.

Section RowBound.

Context {RT : Runtime}.

Variable refToIndexes : string -> Z * Z.
Variable ParseFloat : string -> option float64.
Variable relsName : string -> string.

Lemma decode_rowBound lm toks st s st' s' :
  Forall (fun tok => isDimension tok = false) toks ->
  decode refToIndexes ParseFloat lm toks (st, s) = Ok (st', s') ->
  maxRow s' = maxRow s /\ (rowBound s -> rowBound s').
Proof.
  apply (decode_lift refToIndexes ParseFloat
           (fun t t' => maxRow t' = maxRow t /\ (rowBound t -> rowBound t'))).
  - intros t. split; auto.
  - intros s1 s2 s3 [A B] [C D]. split; [congruence | auto].
  - apply placeValue_rowBound.
Qed.

(** X10. The grid never grows past the declared last row: when the grid
    still has no row once the last [dimension] element has been read (the
    stream is [pre ++ post], with no such element in [post] and no row made
    by [pre]) and [parseSheet] returns, the grid has at most [maxRow + 1]
    rows (none when [maxRow] is negative). In particular a sheet not yet
    loaded whose stream has no [dimension] element keeps [maxRow = 0] and
    gets at most one row. *)
Theorem grid_within_rows (s : Sheet) (pre post : list Token) (fin : error)
    (s' : Sheet) (e : option error) :
  openXML (d s) (docname s) = Opened (mkDecoder (pre ++ post) fin) ->
  (forall ls,
     decode refToIndexes ParseFloat (loadLinks relsName s) pre (initLoop, s)
       = Ok ls -> rows ls.2 = []) ->
  Forall (fun tok => isDimension tok = false) post ->
  parseSheet refToIndexes ParseFloat relsName s = Ok (s', e) ->
  len (rows s') <= Z.max 0 (maxRow s' + 1) /\
  (pre = [] -> maxRow s' = maxRow s).
Proof.
  intros Hopen Hpre Hpost Hparse.
  destruct (parseSheet_opened _ _ _ _ _ _ _ Hopen Hparse) as (st' & Hdec & _).
  cbn [pending] in Hdec. rewrite decode_app in Hdec.
  inv_bind_as Hdec as [st1 s1] Hpre'.
  pose proof (Hpre _ Hpre') as Hrows. cbn in Hrows.
  destruct (decode_rowBound _ _ _ _ _ _ Hpost Hdec) as [HR Hb].
  split.
  - apply Hb. unfold rowBound. rewrite Hrows. unfold len. cbn. lia.
  - intros ->. cbn in Hpre'. injection Hpre' as <- <-. exact HR.
Qed.

End RowBound.

Lemma grid_within_rows_witness :
  (exists s' e,
     Sample.parse
       (mkDecoder (Sample.textCell "A1" "x" ++ Sample.textCell "A2" "y") EOF)
       Sample.noRels = Ok (s', e) /\
     len (rows s') <= 1) /\
  (exists s' e,
     Sample.parse SampleWidth.indented Sample.noRels = Ok (s', e) /\
     len (rows s') <= 3).
Proof.
  split.
  - destruct (Sample.parse
                (mkDecoder (Sample.textCell "A1" "x" ++ Sample.textCell "A2" "y")
                   EOF)
                Sample.noRels) as [[s' e]|p] eqn:E;
      [| vm_compute in E; discriminate E].
    exists s', e. split; [reflexivity |].
    destruct (grid_within_rows Codec.refToIndexes Sample.ParseFloat
                Sample.relsName
                (Sample.sheetOf
                   (mkDecoder
                      (Sample.textCell "A1" "x" ++ Sample.textCell "A2" "y") EOF)
                   Sample.noRels)
                [] (Sample.textCell "A1" "x" ++ Sample.textCell "A2" "y") EOF s' e
                eq_refl
                ltac:(intros ls Hls; injection Hls as <-; reflexivity)
                ltac:(repeat constructor) E) as [Hlen Hmax].
    rewrite (Hmax eq_refl) in Hlen. exact Hlen.
  - destruct (Sample.parse SampleWidth.indented Sample.noRels)
      as [[s' e]|p] eqn:E; [| vm_compute in E; discriminate E].
    exists s', e. split; [reflexivity |].
    destruct (grid_within_rows Codec.refToIndexes Sample.ParseFloat
                Sample.relsName
                (Sample.sheetOf SampleWidth.indented Sample.noRels)
                [OtherToken; CharData " "; Sample.elem "worksheet" [];
                 CharData " "; Sample.elem "c" [("r", "H8")];
                 CharData "9"; EndElement "c";
                 Sample.elem "dimension" [("ref", "A1:C3")]]
                ([CharData " "] ++ Sample.textCell "A1" "x"
                 ++ [CharData " "] ++ Sample.textCell "B2" "y") EOF s' e
                eq_refl
                ltac:(intros ls Hls; vm_compute in Hls; injection Hls as <-;
                      reflexivity)
                ltac:(repeat constructor) E) as [Hlen _].
    vm_compute in E. injection E as <- _. exact Hlen.
Defined.

(** ** What [parseSheet] leaves alone *)

Section Frame.

Context {RT : Runtime}.

Variable refToIndexes : string -> Z * Z.
Variable ParseFloat : string -> option float64.
Variable relsName : string -> string.

(** X11. [parseSheet] changes only the grid, the bounds and the emptiness
    flag: the cursor stays where it was, the document and the names are
    untouched, and the error field is not written, so that the sheet does
    not itself record the error the call returns. A stream without a
    [dimension] element leaves the bounds as they were too. *)
Theorem parseSheet_frame (s s' : Sheet) (e : option error) :
  parseSheet refToIndexes ParseFloat relsName s = Ok (s', e) ->
  sameMeta s s' /\
  (forall toks fin,
     openXML (d s) (docname s) = Opened (mkDecoder toks fin) ->
     Forall (fun tok => isDimension tok = false) toks ->
     sameBounds s s').
Proof.
  intros Hparse. split.
  - unfold parseSheet in Hparse.
    destruct (openXML (d s) (docname s)) as [dec | err0].
    + inv_bind_as Hparse as [st1 s1] Hdec. injection Hparse as <- _.
      exact (decode_sameMeta _ _ _ _ _ _ _ _ Hdec).
    + injection Hparse as <- _. apply sameMeta_refl.
  - intros toks fin Hopen Hall.
    destruct (parseSheet_opened _ _ _ _ _ _ _ Hopen Hparse) as (st' & Hdec & _).
    cbn [pending] in Hdec.
    destruct (decode_keeps _ _ _ _ _ _ Hall Hdec) as (Hb & _). exact Hb.
Qed.

(** ** The emptiness flag *)

Lemma step_not_empty lm st s tok st' s' :
  isDimensionA1 tok = false ->
  step refToIndexes ParseFloat lm (st, s) tok = Ok (st', s') ->
  empty s = false -> empty s' = false.
Proof.
  intros HA1 Hstep.
  destruct (isDimension tok) eqn:Hd.
  - unfold isDimension, isStart in Hd. unfold isDimensionA1 in HA1.
    destruct tok as [local attr | | |]; try discriminate Hd.
    rewrite Hd in HA1. cbn in HA1. unfold step in Hstep. rewrite Hd in Hstep.
    injection Hstep as <- <-. unfold onDimension. rewrite HA1.
    repeat case_match; cbn; auto.
  - revert Hstep.
    apply (step_lift refToIndexes ParseFloat
             (fun t t' => empty t = false -> empty t' = false)); auto.
    intros t r c val str t'. apply placeValue_not_empty.
Qed.

Lemma decode_not_empty lm toks st s st' s' :
  Forall (fun tok => isDimensionA1 tok = false) toks ->
  decode refToIndexes ParseFloat lm toks (st, s) = Ok (st', s') ->
  empty s = false -> empty s' = false.
Proof.
  intros Hall. revert st s. induction Hall as [|tok toks HA1 _ IH]; intros st s H He.
  - injection H as <- <-. exact He.
  - cbn [decode] in H. inv_bind_as H as [st1 s1] Hstep.
    eapply IH; [exact H |]. eapply step_not_empty; eassumption.
Qed.

(** X12. Only a [dimension] element whose [ref] is exactly "A1" sets the
    emptiness flag: a sheet whose flag is clear before the decode (as in a
    sheet not yet loaded) and whose stream holds no such element has
    [IsEmpty() = false] afterwards, also when the stream placed no value
    at all. *)
Theorem IsEmpty_needs_A1 (s : Sheet) (toks : list Token) (fin : error)
    (s' : Sheet) (e : option error) :
  openXML (d s) (docname s) = Opened (mkDecoder toks fin) ->
  Forall (fun tok => isDimensionA1 tok = false) toks ->
  IsEmpty s = false ->
  parseSheet refToIndexes ParseFloat relsName s = Ok (s', e) ->
  IsEmpty s' = false.
Proof.
  intros Hopen Hall He Hparse.
  destruct (parseSheet_opened _ _ _ _ _ _ _ Hopen Hparse) as (st' & Hdec & _).
  cbn [pending] in Hdec. unfold IsEmpty in *.
  eapply decode_not_empty; eassumption.
Qed.

(** ** Tokens the loop passes over *)

Lemma step_ignorable lm ls tok :
  ignorable tok = true -> step refToIndexes ParseFloat lm ls tok = Ok ls.
Proof.
  unfold ignorable, step. destruct ls as [st s].
  destruct tok as [local attr | local | v |]; intros H; try discriminate H.
  - apply negb_true_iff in H.
    apply orb_false_elim in H as [H Hh]. apply orb_false_elim in H as [H Hm].
    apply orb_false_elim in H as [Hd Hc]. rewrite Hd, Hc, Hm, Hh.
    repeat case_match; reflexivity.
  - apply negb_true_iff in H. rewrite H. reflexivity.
  - reflexivity.
Qed.

(** X13. The decode depends only on the [dimension], cell, [mergeCell] and
    [hyperlink] start tags, the end tags of cells and the character data:
    dropping every other token from the stream (comments, containers,
    unknown elements, other end tags) gives the same outcome. *)
Theorem decode_skips_ignorable (lm : gmap string string) (toks : list Token)
    (ls : loopState * Sheet) :
  decode refToIndexes ParseFloat lm
    (List.filter (fun tok => negb (ignorable tok)) toks) ls
  = decode refToIndexes ParseFloat lm toks ls.
Proof.
  revert ls. induction toks as [|tok toks IH]; intros ls; [reflexivity |].
  cbn [List.filter decode]. destruct (ignorable tok) eqn:Hi; cbn [negb].
  - rewrite (step_ignorable lm ls tok Hi). cbn. apply IH.
  - cbn [decode]. destruct (step refToIndexes ParseFloat lm ls tok) as [ls'|p];
      cbn; [apply IH | reflexivity].
Qed.

End Frame.

Lemma parseSheet_frame_witness :
  exists s',
    Sample.parse SampleScan.broken Sample.noRels
      = Ok (s', Some (ErrOther "unexpected EOF in zip")) /\
    Err s' = Some errNotLoaded /\ iterRow s' = 0.
Proof.
  destruct (Sample.parse SampleScan.broken Sample.noRels) as [[s' e]|p] eqn:E;
    [| vm_compute in E; discriminate E].
  exists s'.
  destruct (parseSheet_frame Codec.refToIndexes Sample.ParseFloat Sample.relsName
              _ _ _ E) as [(Herr & _ & _ & _ & _ & Hiter) _].
  split; [| split; [exact Herr | exact Hiter]].
  vm_compute in E. injection E as _ <-. reflexivity.
Defined.

Lemma IsEmpty_needs_A1_witness :
  exists s' e,
    Sample.parse (mkDecoder [Sample.elem "dimension" [("ref", "A1:B2")]] EOF)
      Sample.noRels = Ok (s', e) /\
    rows s' = [] /\ IsEmpty s' = false.
Proof.
  destruct (Sample.parse (mkDecoder [Sample.elem "dimension" [("ref", "A1:B2")]] EOF)
              Sample.noRels) as [[s' e]|p] eqn:E;
    [| vm_compute in E; discriminate E].
  exists s', e. split; [reflexivity |]. split.
  - vm_compute in E. injection E as <- _. reflexivity.
  - apply (IsEmpty_needs_A1 Codec.refToIndexes Sample.ParseFloat Sample.relsName
             (Sample.sheetOf
                (mkDecoder [Sample.elem "dimension" [("ref", "A1:B2")]] EOF)
                Sample.noRels)
             [Sample.elem "dimension" [("ref", "A1:B2")]] EOF s' e eq_refl
             ltac:(repeat constructor) eq_refl E).
Defined.

(** ** Merge regions, whatever the bounds *)



(** ** Reading back through the cursor *)

(** X15. On a rectangular grid every row the cursor reads has the same
    number of strings: when [Strings] returns, it returns [maxCol + 1]
    strings, one per column, whether or not the cells carried data. *)
Theorem Strings_width (s : Sheet) (l : list string) :
  rect s -> Strings s = Ok l -> len l = maxCol s + 1.
Proof.
  intros Hrect H. unfold Strings in H. inv_bind_as H as rw Hrw.
  injection H as <-. apply index_Ok in Hrw as [_ Hrw].
  unfold rect in Hrect. rewrite Forall_lookup in Hrect.
  pose proof (Hrect _ _ Hrw) as Hlen. unfold len in *. rewrite length_map. exact Hlen.
Qed.

Lemma Strings_width_witness :
  exists l, Strings (Next SampleMore.twoRows).1 = Ok l /\ len l = 2.
Proof.
  destruct (Strings (Next SampleMore.twoRows).1) as [l|p] eqn:E;
    [| vm_compute in E; discriminate E].
  exists l. split; [reflexivity |].
  apply (Strings_width (Next SampleMore.twoRows).1 l); [repeat constructor | exact E].
Defined.

(** X16. Scanning into [*interface{}] destinations cannot fail on a type:
    with the cursor on a row and no more destinations than the row has
    columns, [Scan] returns nil and stores the raw value of each cell, in
    order; with fewer destinations than columns the rest of the row is not
    read. *)
Theorem Scan_into_interfaces (s : Sheet) (rw : row) (n : nat) :
  index (rows s) (iterRow s) = Ok rw ->
  (n <= length (cols rw))%nat ->
  Scan s (replicate n PInterface) = Ok (map Raw (take n (cols rw)), None).
Proof.
  intros Hrow Hn. unfold Scan. rewrite Hrow. cbn.
  rewrite <- (app_nil_r (replicate n PInterface)).
  rewrite (scanArgs_prefix (cols rw) (replicate n PInterface) [] 0).
  - rewrite length_replicate. cbn. rewrite app_nil_r. reflexivity.
  - intros j a Ha. apply lookup_replicate in Ha as [-> Hj].
    destruct (lookup_lt_is_Some_2 (cols rw) j) as [v Hv]; [lia |].
    exists v. split; [exact Hv | reflexivity].
Qed.

Lemma Scan_into_interfaces_witness :
  Scan (Next SampleMore.twoRows).1 [PInterface]
  = Ok ([AString "a"], None).
Proof.
  exact (Scan_into_interfaces (Next SampleMore.twoRows).1
           (mkRow [NewValue (AString "a") "a"; NewValue (ABool true) "1"])
           1 eq_refl ltac:(cbn; lia)).
Defined.

(** X17. What is placed is what the cursor reads back: on a well-formed
    sheet (every row has [maxCol + 1] columns, and the bounds are below the
    largest [int] and leave room for a row of [maxCol + 1] values and for
    [maxRow + 1] rows) whose cursor is on the target row, a placement inside
    the bounds returns, [Strings] then gives at the target column the
    display string placed (the empty string when the value placed is nil),
    and [Scan] into [*interface{}] destinations up to that column gives the
    value placed as its last value. *)
Theorem placeValue_read_back {RT : Runtime} (s : Sheet) (r c : Z) (val : Any)
    (str : string) :
  wf s -> iterRow s = r -> 0 <= r <= maxRow s -> 0 <= c <= maxCol s ->
  exists s' l vals,
    placeValue s r c val str = Ok s' /\
    Strings s' = Ok l /\
    l !! Z.to_nat c = Some (match val with ANil => "" | _ => str end) /\
    Scan s' (replicate (Z.to_nat c + 1) PInterface) = Ok (vals, None) /\
    last vals = Some val.
Proof.
  intros Hwf Hiter Hr Hc.
  destruct (placeValue_in s r c val str Hwf Hr Hc)
    as (s' & Hp & (Hrect' & _) & (_ & _ & _ & HmC) & _ & _ & Hcell & _).
  destruct (placeValue_sameMeta _ _ _ _ _ _ Hp) as (_ & _ & _ & _ & _ & Hit).
  rewrite cellAt_lookup in Hcell by lia.
  destruct (rows s' !! Z.to_nat r) as [rw|] eqn:Hrw; [| discriminate Hcell].
  cbn in Hcell.
  assert (Hrow : index (rows s') (iterRow s') = Ok rw).
  { apply index_Ok. rewrite Hit, Hiter. split; [lia | exact Hrw]. }
  assert (Hlt : (Z.to_nat c + 1 <= length (cols rw))%nat).
  { apply lookup_lt_Some in Hcell. lia. }
  eexists s', _, _. split; [exact Hp |].
  split; [apply Strings_on_row; exact Hrow |].
  split.
  { rewrite list_lookup_fmap, Hcell. cbn. unfold valueIsEmpty, Sprint. cbn.
    destruct val; reflexivity. }
  split; [apply (Scan_into_interfaces s' rw); assumption |].
  replace (Z.to_nat c + 1)%nat with (S (Z.to_nat c)) by lia.
  rewrite (take_S_r _ _ _ Hcell), map_app. cbn. apply last_snoc.
Qed.

Lemma placeValue_read_back_witness :
  exists s' l vals,
    placeValue SampleLink.gridExample 0 1 (AString "x") "x" = Ok s' /\
    Strings s' = Ok l /\ l !! 1%nat = Some "x" /\
    Scan s' [PInterface; PInterface] = Ok (vals, None) /\
    last vals = Some (AString "x").
Proof.
  assert (Hwf : wf SampleLink.gridExample).
  { split; [repeat constructor |]. split; vm_compute; reflexivity. }
  exact (placeValue_read_back SampleLink.gridExample 0 1 (AString "x") "x"
           Hwf eq_refl ltac:(cbn; lia) ltac:(cbn; lia)).
Defined.

(** ** Moving the cursor *)

(** X18. [Next] walks the rows in order: from a cursor [c0], the call
    number [n + 1] moves the cursor to [c0 + n + 1] and returns true exactly
    when that is a row index below [len(rows)] (as long as the cursor does
    not pass the largest [int]); it never changes the grid. So from the
    cursor -1 exactly the first [len(rows)] calls return true, and from the
    zero cursor of a fresh struct row 0 is passed over. *)
Theorem Next_walks (s : Sheet) (n : nat) :
  min_int <= iterRow s -> iterRow s + Z.of_nat n + 1 <= max_int ->
  let '(s', more) := Next (nextTimes n s) in
  iterRow s' = iterRow s + Z.of_nat n + 1 /\
  more = (iterRow s + Z.of_nat n + 1 <? len (rows s)) /\
  rows s' = rows s.
Proof.
  intros Hlo Hhi. unfold Next. cbn [iterRow rows set_iterRow].
  rewrite nextTimes_iterRow by lia. rewrite nextTimes_rows.
  rewrite wrap_small by lia. auto.
Qed.

Lemma Next_walks_witness :
  (Next (nextTimes 1 SampleMore.twoRows)).2 = true /\
  (Next (nextTimes 2 SampleMore.twoRows)).2 = false.
Proof.
  split.
  - pose proof (Next_walks SampleMore.twoRows 1) as H.
    destruct (Next (nextTimes 1 SampleMore.twoRows)) as [s' more].
    destruct H as (_ & -> & _); [vm_compute; discriminate | vm_compute; discriminate |].
    reflexivity.
  - pose proof (Next_walks SampleMore.twoRows 2) as H.
    destruct (Next (nextTimes 2 SampleMore.twoRows)) as [s' more].
    destruct H as (_ & -> & _); [vm_compute; discriminate | vm_compute; discriminate |].
    reflexivity.
Defined.

(** X19. After [Next] has returned true from a cursor that was at least
    -1 and below the largest [int], the cursor is on a row: [Strings]
    returns, and so does [Scan] with no destination, or on a rectangular
    grid with up to [maxCol + 1] destinations of type [*interface{}]. *)
Theorem Next_true_is_safe (s : Sheet) (n : nat) :
  -1 <= iterRow s < max_int ->
  (Next s).2 = true ->
  returns (Strings (Next s).1) /\
  returns (Scan (Next s).1 []) /\
  (rect s -> Z.of_nat n <= maxCol s + 1 ->
   returns (Scan (Next s).1 (replicate n PInterface))).
Proof.
  intros Hcur Htrue. unfold Next in *. cbn [fst snd] in *.
  cbn [iterRow rows set_iterRow] in Htrue. apply Z.ltb_lt in Htrue.
  rewrite wrap_small in Htrue by (unfold min_int, max_int in *; lia).
  set (s' := set_iterRow s (wrap (iterRow s + 1))).
  assert (Hin : 0 <= iterRow s' < len (rows s')).
  { subst s'. cbn [iterRow rows set_iterRow].
    rewrite wrap_small by (unfold min_int, max_int in *; lia). lia. }
  destruct (index_in_range (rows s') (iterRow s') Hin) as (rw & Hrw & Hlk).
  split; [| split].
  - unfold Strings. rewrite Hrw. eexists. reflexivity.
  - unfold Scan. rewrite Hrw. eexists. reflexivity.
  - intros Hrect Hn. eexists. apply (Scan_into_interfaces s' rw); [exact Hrw |].
    unfold rect in Hrect. rewrite Forall_lookup in Hrect.
    pose proof (Hrect _ _ Hlk) as Hlen. unfold len in Hlen. lia.
Qed.

Lemma Next_true_is_safe_witness :
  returns (Strings (Next SampleMore.twoRows).1) /\
  returns (Scan (Next SampleMore.twoRows).1 [PInterface; PInterface]).
Proof.
  destruct (Next_true_is_safe SampleMore.twoRows 2) as (Hs & _ & Hscan).
  - cbn. unfold max_int. lia.
  - reflexivity.
  - split; [exact Hs |]. apply Hscan; [repeat constructor | cbn; lia].
Defined.

(** ** Hyperlinks and dimensions that repeat *)

(** X20. Hyperlinks on one cell pile up: after a [hyperlink] element has
    written a cell inside the bounds, the cell holds a string, so the same
    element once more composes on top of it: the cell then holds the former
    string, a space and the target in angle brackets again. *)
Theorem hyperlink_twice {RT : Runtime} (refToIndexes : string -> Z * Z)
    (linkmap : gmap string string) (s s1 : Sheet) (attr : list Attr)
    (col row : Z) :
  refToIndexes (getAttr attr "ref") = (col, row) ->
  row <= maxRow s -> col <= maxCol s ->
  onHyperlink refToIndexes linkmap s attr = Ok s1 ->
  exists link,
    cellAt s1 row col = Some (NewValue (AString link) link) /\
    onHyperlink refToIndexes linkmap s1 attr
    = placeValue s1 row col
        (AString (link +:+ " <" +:+ default "" (linkmap !! getAttr attr "id") +:+ ">"))
        (link +:+ " <" +:+ default "" (linkmap !! getAttr attr "id") +:+ ">").
Proof.
  intros Href Hr Hc H1. unfold onHyperlink in *. rewrite Href in *.
  inv_bind_as H1 as link Hlink.
  destruct (placeValue_effect _ _ _ _ _ _ H1) as (Hin & _).
  destruct (Hin Hr Hc) as [Hcell _].
  destruct (cellAt_nonneg _ _ _ _ Hcell) as [H0r H0c].
  exists link. split; [exact Hcell |].
  rewrite composeLink_sound by assumption.
  rewrite (look_cell _ _ _ _ Hcell). reflexivity.
Qed.

Lemma hyperlink_twice_witness :
  exists s1 s2,
    onHyperlink Codec.refToIndexes SampleLink.links SampleLink.gridExample
      SampleLink.linkA1 = Ok s1 /\
    onHyperlink Codec.refToIndexes SampleLink.links s1 SampleLink.linkA1 = Ok s2 /\
    cellAt s2 0 0 = Some (NewValue (AString "Example <http://x> <http://x>")
                                   "Example <http://x> <http://x>").
Proof.
  destruct (onHyperlink Codec.refToIndexes SampleLink.links SampleLink.gridExample
              SampleLink.linkA1) as [s1|p] eqn:E1;
    [| vm_compute in E1; discriminate E1].
  destruct (hyperlink_twice Codec.refToIndexes SampleLink.links
              SampleLink.gridExample s1 SampleLink.linkA1 0 0 eq_refl
              ltac:(cbn; lia) ltac:(cbn; lia) E1) as (link & Hcell & Hrun).
  vm_compute in E1. injection E1 as <-.
  vm_compute in Hcell. injection Hcell as <-.
  eexists _, _. split; [reflexivity |]. split; [exact Hrun |].
  vm_compute. reflexivity.
Defined.

Section LastDimension.

Context {RT : Runtime}.

Variable refToIndexes : string -> Z * Z.
Variable ParseFloat : string -> option float64.
Variable relsName : string -> string.

Lemma onDimension_bounds s1 s2 attr :
  boundsOf (onDimension refToIndexes s1 attr)
  = boundsOf (onDimension refToIndexes s2 attr).
Proof. unfold onDimension, boundsOf. repeat case_match; reflexivity. Qed.

(** X21. The declared bounds after the decode are those of the last
    [dimension] element alone: every such element writes all four bounds,
    whatever they were, and nothing else writes them. *)
Theorem last_dimension_wins (s : Sheet) (pre rest : list Token)
    (attr : list Attr) (fin : error) (s' : Sheet) (e : option error) :
  openXML (d s) (docname s)
    = Opened (mkDecoder (pre ++ StartElement "dimension" attr :: rest) fin) ->
  Forall (fun tok => isDimension tok = false) rest ->
  parseSheet refToIndexes ParseFloat relsName s = Ok (s', e) ->
  boundsOf s' = boundsOf (onDimension refToIndexes s attr).
Proof.
  intros Hopen Hrest Hparse.
  destruct (parseSheet_opened _ _ _ _ _ _ _ Hopen Hparse) as (st' & Hdec & _).
  cbn [pending] in Hdec. rewrite decode_app in Hdec.
  inv_bind_as Hdec as [st0 s0] Hpre. cbn [decode] in Hdec.
  inv_bind_as Hdec as [st1 s1] Hdim. cbn in Hdim. injection Hdim as <- <-.
  destruct (decode_keeps _ _ _ _ _ _ Hrest Hdec) as ((B1 & B2 & B3 & B4) & _).
  cbn in B1, B2, B3, B4.
  rewrite <- (onDimension_bounds s0 s attr). unfold boundsOf. congruence.
Qed.

End LastDimension.

Lemma last_dimension_wins_witness :
  exists s' e,
    Sample.parse
      (mkDecoder ([Sample.elem "dimension" [("ref", "A1:Z99")]]
                  ++ Sample.textCell "C3" "x"
                  ++ [Sample.elem "dimension" [("ref", "B2:C3")]]) EOF)
      Sample.noRels = Ok (s', e) /\
    boundsOf s' = (1, 1, 2, 2).
Proof.
  destruct (Sample.parse
              (mkDecoder ([Sample.elem "dimension" [("ref", "A1:Z99")]]
                          ++ Sample.textCell "C3" "x"
                          ++ [Sample.elem "dimension" [("ref", "B2:C3")]]) EOF)
              Sample.noRels) as [[s' e]|p] eqn:E;
    [| vm_compute in E; discriminate E].
  exists s', e. split; [reflexivity |].
  rewrite (last_dimension_wins Codec.refToIndexes Sample.ParseFloat Sample.relsName
             (Sample.sheetOf
                (mkDecoder ([Sample.elem "dimension" [("ref", "A1:Z99")]]
                            ++ Sample.textCell "C3" "x"
                            ++ [Sample.elem "dimension" [("ref", "B2:C3")]]) EOF)
                Sample.noRels)
             ([Sample.elem "dimension" [("ref", "A1:Z99")]] ++ Sample.textCell "C3" "x")
             [] [mkAttr "ref" "B2:C3"] EOF s' e eq_refl ltac:(constructor) E).
  reflexivity.
Defined.

(** ** Streams that decode without a panic *)

Section SafeDecode.

Context {RT : Runtime}.

Variable refToIndexes : string -> Z * Z.
Variable ParseFloat : string -> option float64.
Variable relsName : string -> string.

(** The cursor tracks a state whose sheet is well formed. *)
Ltac track :=
  split; [cbn [fst snd]; assumption |];
  repeat split; cbn; try assumption; try congruence; try discriminate.

(** A token the check accepts makes no panic, and the cursor of the check
    tracks the state after it. *)
Lemma safeStep_sound lm s0 k k' st s tok :
  safeStep refToIndexes s0 k tok = Some k' ->
  tracks s0 k (st, s) ->
  exists st' s',
    step refToIndexes ParseFloat lm (st, s) tok = Ok (st', s') /\
    tracks s0 k' (st', s').
Proof.
  intros Hsafe (Hwf & Hd & Hrows & Hcell & Htype & Hfmt). cbn [fst snd] in *.
  destruct tok as [local attr | local | v |]; cbn [safeStep step] in *.
  - (* StartElement *)
    destruct (String.eqb local "dimension") eqn:Edim.
    { destruct (untouched k) eqn:Eu; [| discriminate Hsafe]. cbn [andb] in Hsafe.
      destruct (Z.ltb_spec (maxCol (onDimension refToIndexes s0 attr))
                  (Z.min max_int maxValues)) as [HmC |]; [| discriminate Hsafe].
      destruct (Z.ltb_spec (maxRow (onDimension refToIndexes s0 attr))
                  (Z.min max_int maxRows)) as [HmR |]; [| discriminate Hsafe].
      injection Hsafe as <-. eexists _, _. split; [reflexivity |].
      pose proof (onDimension_bounds refToIndexes s s0 attr) as Hb.
      unfold boundsOf in Hb. injection Hb as B1 B2 B3 B4.
      assert (Hsame : rows (onDimension refToIndexes s attr) = rows s
                      /\ d (onDimension refToIndexes s attr) = d s).
      { unfold onDimension. repeat case_match; split; reflexivity. }
      destruct Hsame as [Hr' Hd'].
      repeat split; cbn [fst snd]; try assumption.
      - unfold rect. rewrite Hr', (Hrows eq_refl). constructor.
      - lia.
      - lia.
      - congruence.
      - intros _. rewrite Hr'. exact (Hrows eq_refl). }
    destruct (String.eqb local "row") eqn:Erow.
    { assert (k' = k) as ->.
      { repeat case_match; try congruence;
          apply String.eqb_eq in Erow; subst local; discriminate. }
      eexists _, _. split; [reflexivity |]. track. }
    destruct (String.eqb local "c") eqn:Ec.
    { destruct (Z.leb_spec 0 (fst (ParseInt (getAttr attr "s")))) as [Hsid |];
        [| discriminate Hsafe].
      destruct (Z.ltb_spec 0 (len (xfs (d s0)))) as [Hlen |];
        [| discriminate Hsafe].
      cbn [andb] in Hsafe. injection Hsafe as <-.
      assert (Hix : exists fmt,
                 (if len (xfs (d s)) >? fst (ParseInt (getAttr attr "s"))
                  then index (xfs (d s)) (fst (ParseInt (getAttr attr "s")))
                  else index (xfs (d s)) 0) = Ok fmt).
      { rewrite Hd.
        destruct (Z.gtb_spec (len (xfs (d s0))) (fst (ParseInt (getAttr attr "s")))).
        - destruct (index_in_range (xfs (d s0)) (fst (ParseInt (getAttr attr "s"))))
            as (fmt & Hfm & _); [lia | eauto].
        - destruct (index_in_range (xfs (d s0)) 0) as (fmt & Hfm & _); [lia | eauto]. }
      destruct Hix as [fmt Hix]. unfold onCell. rewrite Hix.
      eexists _, _. split; [reflexivity |].
      track. }
    destruct (String.eqb local "v") eqn:Ev.
    { assert (k' = k) as ->.
      { repeat case_match; try congruence;
          apply String.eqb_eq in Ev; subst local; discriminate. }
      eexists _, _. split; [reflexivity |]. track. }
    destruct (String.eqb local "mergeCell") eqn:Em.
    { destruct (safeRegion refToIndexes attr) eqn:Ereg; [| discriminate Hsafe].
      injection Hsafe as <-. unfold safeRegion in Ereg. unfold onMergeCell.
      destruct (mergeEnds refToIndexes attr) as [[[sc sr] ec] er].
      destruct (mergeRange_total sc sr ec er s Hwf) as (s' & Hs' & Hwf' & Hd').
      { destruct (Z.ltb_spec er sr); [left; lia |]. right.
        destruct (Z.leb_spec 0 sr); [| discriminate Ereg].
        destruct (Z.ltb_spec er max_int); [| discriminate Ereg].
        cbn [orb andb] in Ereg.
        destruct (Z.ltb_spec ec sc); [lia |].
        destruct (Z.leb_spec 0 sc); [| discriminate Ereg].
        destruct (Z.ltb_spec ec max_int); [| discriminate Ereg]. lia. }
      rewrite Hs'. eexists _, _. split; [reflexivity |].
      track. }
    destruct (String.eqb local "hyperlink") eqn:Eh.
    { destruct (soundRef refToIndexes (getAttr attr "ref")) eqn:Eref;
        [| discriminate Hsafe].
      injection Hsafe as <-. unfold soundRef in Eref. unfold onHyperlink.
      destruct (refToIndexes (getAttr attr "ref")) as [col row].
      apply andb_true_iff in Eref as [Hcol Hrow].
      apply Z.leb_le in Hcol, Hrow.
      rewrite composeLink_sound by assumption. cbn.
      match goal with |- context [placeValue s row col ?a ?b] =>
        destruct (placeValue_total s row col a b Hwf Hrow Hcol)
          as (s' & Hs' & Hwf' & Hd') end.
      rewrite Hs'. eexists _, _. split; [reflexivity |].
      track. }
    injection Hsafe as <-.
    eexists _, _. split; [reflexivity |]. track.
  - (* EndElement *)
    destruct (String.eqb local "c"); injection Hsafe as <-;
      (eexists _, _; split; [reflexivity |]);
      track.
  - (* CharData *)
    unfold onCharData. rewrite Hcell, Htype. unfold soundRef in Hsafe.
    destruct (String.eqb_spec (openCell k) "") as [Hopen | Hopen].
    { cbn in Hsafe. injection Hsafe as <-.
      eexists _, _. split; [reflexivity |]. track. }
    cbn [orb] in Hsafe.
    destruct (refToIndexes (openCell k)) as [c r].
    destruct (Z.leb_spec 0 c) as [Hc | Hc];
      [destruct (Z.leb_spec 0 r) as [Hr | Hr] |].
    2: { cbn in Hsafe. injection Hsafe as <-.
         destruct (Z.geb_spec c 0); [| lia]. destruct (Z.geb_spec r 0); [lia |].
         eexists _, _. split; [reflexivity |]. track. }
    2: { cbn in Hsafe. injection Hsafe as <-.
         destruct (Z.geb_spec c 0); [lia |].
         eexists _, _. split; [reflexivity |]. track. }
    cbn [andb negb] in Hsafe.
    destruct (Z.geb_spec c 0); [| lia]. destruct (Z.geb_spec r 0); [| lia].
    cbn [andb].
    assert (Hplace : forall val str,
               exists st' s',
                 (s' ← placeValue s r c val str; Ok (st, s')) = Ok (st', s') /\
                 tracks s0 (touch k) (st', s')).
    { intros val str.
      destruct (placeValue_total s r c val str Hwf Hr Hc) as (s' & Hs' & Hwf' & Hd').
      rewrite Hs'. eexists _, _. split; [reflexivity |].
      track. }
    destruct (String.eqb (openType k) BooleanCellType).
    { destruct v as [| b v']; [discriminate Hsafe |].
      cbn in Hsafe. injection Hsafe as <-. apply Hplace. }
    destruct (String.eqb (openType k) DateCellType).
    { assert (k' = touch k) as -> by (repeat case_match; congruence).
      apply Hplace. }
    destruct (String.eqb (openType k) NumberCellType).
    { assert (k' = touch k) as -> by (repeat case_match; congruence).
      destruct (ParseFloat v) as [fval |]; [| apply Hplace].
      destruct (numFormat st) as [fmt |] eqn:Efmt;
        [| exfalso; apply (Hfmt Hopen); reflexivity].
      destruct (fmt fval) as [str val]. apply Hplace. }
    destruct (String.eqb (openType k) SharedStringCellType).
    { destruct (Z.leb_spec 0 (fst (ParseInt v))) as [Hsi |];
        [| discriminate Hsafe].
      destruct (Z.ltb_spec (fst (ParseInt v)) (len (strings (d s0)))) as [Hlt |];
        [| discriminate Hsafe].
      cbn in Hsafe. injection Hsafe as <-.
      destruct (index_in_range (strings (d s)) (fst (ParseInt v)))
        as (str & Hstr & _); [rewrite Hd; lia |].
      rewrite Hstr. cbn. apply Hplace. }
    injection Hsafe as <-.
    destruct (String.eqb (openType k) BlankCellType); [| apply Hplace].
    eexists _, _. split; [reflexivity |].
    track.
  - (* OtherToken *)
    injection Hsafe as <-.
    eexists _, _. split; [reflexivity |]. track.
Qed.

Lemma safeStream_sound lm s0 toks : forall k ls,
  safeStream refToIndexes s0 k toks = true ->
  tracks s0 k ls ->
  exists ls', decode refToIndexes ParseFloat lm toks ls = Ok ls' /\ wf ls'.2.
Proof.
  induction toks as [| tok toks IH]; intros k [st s] Hsafe Htr.
  - exists (st, s). split; [reflexivity | exact (proj1 Htr)].
  - cbn [safeStream] in Hsafe.
    destruct (safeStep refToIndexes s0 k tok) as [k' |] eqn:Ek;
      [| discriminate Hsafe].
    destruct (safeStep_sound lm s0 k k' st s tok Ek Htr) as (st' & s' & Hstep & Htr').
    destruct (IH k' (st', s') Hsafe Htr') as (ls' & Hdec & Hwf').
    exists ls'. split; [| exact Hwf']. cbn [decode]. rewrite Hstep. exact Hdec.
Qed.

(** X22. A worksheet stream that passes the check [safeStream] is decoded
    without a panic: when the sheet has no row yet and its bounds are below
    the largest [int] and leave room for a row of [maxCol + 1] values and
    for [maxRow + 1] rows (as the check asks of every [dimension] element
    too), [parseSheet] returns, with the error the stream ends on unless
    that is the end of the input, and every row of the grid it leaves has
    [maxCol + 1] columns. *)
Theorem parseSheet_returns (s : Sheet) (dec : Decoder) :
  openXML (d s) (docname s) = Opened dec ->
  rows s = [] ->
  maxCol s < Z.min max_int maxValues -> maxRow s < Z.min max_int maxRows ->
  safeStream refToIndexes s (mkCursor true "" BlankCellType) (pending dec) = true ->
  exists s',
    parseSheet refToIndexes ParseFloat relsName s
    = Ok (s', if error_eqb (final dec) EOF then None else Some (final dec)) /\
    rect s'.
Proof.
  intros Hopen Hrows HmC HmR Hsafe.
  destruct (safeStream_sound (loadLinks relsName s) s (pending dec)
              (mkCursor true "" BlankCellType) (initLoop, s) Hsafe)
    as ([st' s'] & Hdec & Hwf').
  { repeat split; cbn; try assumption; try reflexivity;
      try (intros _; assumption).
    - unfold rect. rewrite Hrows. constructor.
    - intros H. contradiction. }
  exists s'. split; [| exact (proj1 Hwf')].
  unfold parseSheet. rewrite Hopen, Hdec. reflexivity.
Qed.

End SafeDecode.

Lemma parseSheet_returns_witness :
  exists s',
    Sample.parse (mkDecoder SampleSafe.worksheet EOF) SampleLink.rels
    = Ok (s', None) /\
    rect s' /\
    Strings (set_iterRow s' 0) = Ok ["second <http://x>"; ""] /\
    Strings (set_iterRow s' 1) = Ok [""; ""].
Proof.
  destruct (parseSheet_returns (RT := Sample.runtime) Codec.refToIndexes
              Sample.ParseFloat Sample.relsName
              (Sample.sheetOf (mkDecoder SampleSafe.worksheet EOF) SampleLink.rels)
              (mkDecoder SampleSafe.worksheet EOF) eq_refl eq_refl
              ltac:(vm_compute; reflexivity) ltac:(vm_compute; reflexivity)
              ltac:(vm_compute; reflexivity)) as (s' & Hparse & Hrect).
  exists s'. split; [exact Hparse |]. split; [exact Hrect |].
  vm_compute in Hparse. injection Hparse as <-.
  split; vm_compute; reflexivity.
Defined.
